(** * FRTMTools: the APK manifest helper [parse_apk_manifest.py]

    A shallow embedding of [parse_binary_xml]: the chunk scanner that
    recovers the string pool of an Android binary XML buffer, and the
    heuristic classifier that selects package name, version name, version
    code, application label and permissions from the pool.

    Conventions.
    - A Python [bytes] object is a [list Byte.byte]; a Python [str] is the
      list of its code points (as [Z]).
    - Python integers are unbounded, hence [Z] with no wrap-around.
    - An exception is a value of [exn]; code that may raise returns a
      [result].  The [while] loop of the scanner and the [for] loop over
      [range(string_count)] take a fuel argument and return [None] when
      it runs out; [parse_binary_xml] supplies enough of it.
    - The behaviour of [str] methods on ASCII characters is written out;
      on other characters it is read from a [UnicodeData] table, which
      every definition of the classifier takes as an argument. *)

From Stdlib Require Import String Ascii ZArith Bool Lia List.
From Stdlib Require Import Init.Byte.
Import ListNotations.
Local Open Scope Z_scope.

(* ===================================================================== *)
(** ** Python values *)

Definition bytes := list Byte.byte.
Definition codepoint := Z.
Definition str := list codepoint.

(** [len(x)] *)
Definition len {A : Type} (l : list A) : Z := Z.of_nat (length l).

(** A string literal of the source (ASCII only). *)
Definition lit (s : string) : str :=
  map (fun a => Z.of_N (N_of_ascii a)) (list_ascii_of_string s).
Arguments lit s%_string.

(** The value of one byte, [0..255]. *)
Definition byte_val (b : Byte.byte) : Z := Z.of_N (Byte.to_N b).

(** A buffer written as a list of numbers (used for concrete inputs). *)
Definition bytes_of (l : list Z) : bytes :=
  map (fun z => match Byte.of_N (Z.to_N z) with
                | Some b => b
                | None => Byte.x00
                end) l.

(** [data[lo:hi]] for non-negative [lo] and [hi]: the slice is clipped to
    the buffer, it never fails. *)
Definition slice {A : Type} (data : list A) (lo hi : Z) : list A :=
  firstn (Z.to_nat (hi - lo)) (skipn (Z.to_nat lo) data).

(* ===================================================================== *)
(** ** Exceptions and results *)

Inductive exn : Type :=
| StructError (need : Z)      (* struct.error: unpack requires a buffer of [need] bytes *)
| IndexError                  (* list / string index out of range *)
| ValueError (literal : str). (* invalid literal for int() with base 10 *)

Inductive result (A : Type) : Type :=
| Return (a : A)
| Raise (e : exn).
Arguments Return {A} a.
Arguments Raise {A} e.

Definition bind {A B : Type} (r : result A) (k : A -> result B) : result B :=
  match r with
  | Return a => k a
  | Raise e => Raise e
  end.

Notation "x <- r ;; k" := (bind r (fun x => k))
  (at level 61, r at next level, right associativity).
Notation "' p <- r ;; k" := (bind r (fun p => k))
  (at level 61, p pattern, r at next level, right associativity).

(** [for x in l: acc = f(acc, x)] where the body may raise. *)
Fixpoint foldM {S A : Type} (f : S -> A -> result S) (l : list A) (s : S)
  : result S :=
  match l with
  | [] => Return s
  | x :: rest => s' <- f s x ;; foldM f rest s'
  end.

(** [l[k]] with Python's negative indices; out of range raises. *)
Definition getitem {A : Type} (l : list A) (k : Z) : result A :=
  let k' := if k <? 0 then k + len l else k in
  if (0 <=? k') && (k' <? len l) then
    match nth_error l (Z.to_nat k') with
    | Some x => Return x
    | None => Raise IndexError
    end
  else Raise IndexError.

(** Python truthiness of a variable that holds [None] or a string. *)
Definition truthy (v : option str) : bool :=
  match v with
  | Some (_ :: _) => true
  | _ => false
  end.

(* ===================================================================== *)
(** ** [struct.unpack] and UTF-16 *)

(** [struct.unpack('<I', b)[0]] *)
Definition unpack_I (b : bytes) : result Z :=
  match b with
  | [b0; b1; b2; b3] =>
      Return (byte_val b0 + 256 * byte_val b1 + 65536 * byte_val b2
              + 16777216 * byte_val b3)
  | _ => Raise (StructError 4)
  end.

(** [struct.unpack('<H', b)[0]] *)
Definition unpack_H (b : bytes) : result Z :=
  match b with
  | [b0; b1] => Return (byte_val b0 + 256 * byte_val b1)
  | _ => Raise (StructError 2)
  end.

Definition is_high_surrogate (u : Z) : bool := (0xD800 <=? u) && (u <=? 0xDBFF).
Definition is_low_surrogate (u : Z) : bool := (0xDC00 <=? u) && (u <=? 0xDFFF).

(** [b.decode('utf-16-le', errors='ignore')]: two bytes make a code unit; a
    surrogate pair makes one code point; a lone low surrogate, and a high
    surrogate that no low surrogate follows, are dropped; a trailing odd
    byte and a high surrogate at the very end are dropped.  It never
    raises. *)
Fixpoint decode_utf16le (b : bytes) : str :=
  match b with
  | b0 :: b1 :: rest =>
      let u := byte_val b0 + 256 * byte_val b1 in
      if is_low_surrogate u then decode_utf16le rest
      else if is_high_surrogate u then
        match rest with
        | c0 :: c1 :: rest' =>
            let v := byte_val c0 + 256 * byte_val c1 in
            if is_low_surrogate v
            then (0x10000 + (u - 0xD800) * 1024 + (v - 0xDC00)) :: decode_utf16le rest'
            else decode_utf16le rest
        | _ => []
        end
      else u :: decode_utf16le rest
  | _ => []
  end.

(* ===================================================================== *)
(** ** The chunk scanner (lines 27-64 of the source) *)

Definition STRING_POOL : Z := 0x001C0001.

(** Lines 44-47: [for i in range(string_count)], reading the offset table. *)
Fixpoint read_offsets (fuel : nat) (data : bytes) (offset string_count i : Z)
    (offsets : list Z) : option (result (list Z)) :=
  match fuel with
  | O => None
  | S fuel' =>
      if i <? string_count then
        match unpack_I (slice data (offset + 28 + i * 4) (offset + 32 + i * 4)) with
        | Return str_offset =>
            read_offsets fuel' data offset string_count (i + 1) (offsets ++ [str_offset])
        | Raise e => Some (Raise e)
        end
      else Some (Return offsets)
  end.

(** Lines 51-61: [for str_offset in offsets], decoding the strings. *)
Fixpoint read_strings (data : bytes) (data_start : Z) (offsets : list Z)
    (strings : list str) : result (list str) :=
  match offsets with
  | [] => Return strings
  | str_offset :: rest =>
      let str_pos := data_start + str_offset in
      if str_pos <? len data - 2 then
        str_len <- unpack_H (slice data str_pos (str_pos + 2)) ;;
        if (0 <? str_len) && (str_len <? 1000) then
          let string := decode_utf16le (slice data (str_pos + 2) (str_pos + 2 + str_len * 2)) in
          read_strings data data_start rest (strings ++ [string])
        else read_strings data data_start rest strings
      else read_strings data data_start rest strings
  end.

(** Lines 39-62: the body run when the chunk at [offset] is a string pool. *)
Definition read_string_pool (fuel : nat) (data : bytes) (offset : Z)
  : option (result (list str)) :=
  match unpack_I (slice data (offset + 8) (offset + 12)) with
  | Raise e => Some (Raise e)
  | Return string_count =>
      match read_offsets fuel data offset string_count 0 [] with
      | None => None
      | Some (Raise e) => Some (Raise e)
      | Some (Return offsets) =>
          let data_start := offset + 28 + string_count * 4 in
          Some (read_strings data data_start offsets [])
      end
  end.

(** What one evaluation of the [while] condition and loop head decides. *)
Inductive chunk_action : Type :=
| Stop                   (* [offset < len(data) - 8] is false *)
| Pool                   (* the chunk is the string pool: parse it and [break] *)
| Next (offset' : Z).    (* line 64: move the cursor *)

(** Lines 35-39 and 64. *)
Definition chunk_step (data : bytes) (offset : Z) : result chunk_action :=
  if offset <? len data - 8 then
    chunk_type <- unpack_I (slice data offset (offset + 4)) ;;
    chunk_size <- unpack_I (slice data (offset + 4) (offset + 8)) ;;
    if chunk_type =? STRING_POOL then Return Pool
    else Return (Next (offset + (if 0 <? chunk_size then chunk_size else 1)))
  else Return Stop.

(** Lines 35-64: the [while] loop; [strings] is still [[]] when it is left
    without a pool. *)
Fixpoint scan_chunks (fuel : nat) (data : bytes) (offset : Z)
  : option (result (list str)) :=
  match fuel with
  | O => None
  | S fuel' =>
      match chunk_step data offset with
      | Raise e => Some (Raise e)
      | Return Stop => Some (Return [])
      | Return Pool => read_string_pool fuel' data offset
      | Return (Next offset') => scan_chunks fuel' data offset'
      end
  end.

(* ===================================================================== *)
(** ** [str] methods *)

Fixpoint str_eqb (a b : str) : bool :=
  match a, b with
  | [], [] => true
  | x :: a', y :: b' => (x =? y) && str_eqb a' b'
  | _, _ => false
  end.

(** [s.startswith(prefix)] *)
Fixpoint startswith (s prefix : str) : bool :=
  match prefix, s with
  | [], _ => true
  | p :: prefix', c :: s' => (c =? p) && startswith s' prefix'
  | _ :: _, [] => false
  end.

(** [s.endswith(suffix)] *)
Definition endswith (s suffix : str) : bool := startswith (rev s) (rev suffix).

(** [sub in s] *)
Fixpoint contains (s sub : str) : bool :=
  startswith s sub ||
  match s with
  | [] => false
  | _ :: s' => contains s' sub
  end.

(** [s.count(c)] for a one-character [c] *)
Definition count (s : str) (c : codepoint) : Z := len (filter (Z.eqb c) s).

(** [s.replace(c, '')] for a one-character [c] *)
Definition remove_char (s : str) (c : codepoint) : str :=
  filter (fun x => negb (x =? c)) s.

(** [s.replace(c1 + c2, '')] for a two-character pattern: occurrences are
    removed from left to right and do not overlap. *)
Fixpoint remove_pair (s : str) (c1 c2 : codepoint) : str :=
  match s with
  | x :: tl =>
      match tl with
      | y :: rest =>
          if (x =? c1) && (y =? c2) then remove_pair rest c1 c2
          else x :: remove_pair tl c1 c2
      | [] => [x]
      end
  | [] => []
  end.

(** [s.split(sep)] for a one-character [sep]: never the empty list. *)
Fixpoint split (s : str) (sep : codepoint) : list str :=
  match s with
  | [] => [[]]
  | c :: rest =>
      if c =? sep then [] :: split rest sep
      else match split rest sep with
           | part :: parts => (c :: part) :: parts
           | [] => [[c]]
           end
  end.

(** [range(lo, hi)] *)
Definition range (lo hi : Z) : list Z :=
  map (fun k => lo + Z.of_nat k) (seq 0 (Z.to_nat (hi - lo))).

(** Characters of the literals the source compares against. *)
Definition DOT : codepoint := 46.
Definition DASH : codepoint := 45.
Definition UNDERSCORE : codepoint := 95.
Definition CHAR_a : codepoint := 97.
Definition CHAR_b : codepoint := 98.
Definition CHAR_r : codepoint := 114.
Definition CHAR_c : codepoint := 99.

(** *** ASCII character classes *)

Definition ascii_isdigit (c : codepoint) : bool := (48 <=? c) && (c <=? 57).
Definition ascii_isupper (c : codepoint) : bool := (65 <=? c) && (c <=? 90).
Definition ascii_islower (c : codepoint) : bool := (97 <=? c) && (c <=? 122).
Definition ascii_isalpha (c : codepoint) : bool := ascii_isupper c || ascii_islower c.
Definition ascii_upper (c : codepoint) : codepoint := if ascii_islower c then c - 32 else c.
Definition ascii_lower (c : codepoint) : codepoint := if ascii_isupper c then c + 32 else c.
Definition is_ascii (c : codepoint) : bool := c <? 128.

(** *** The Unicode character database

    What Python's [str] methods answer for a character outside ASCII.
    [uni_isdigit] is [str.isdigit] (Numeric_Type Digit or Decimal),
    [uni_decimal] the value [int()] gives a decimal digit ([None] for a
    character [int()] rejects), [uni_upper] the full upper-case mapping
    (it may yield several characters), [uni_capitalize] the result of
    [str.capitalize] on a string that holds a non-ASCII character. *)
Record UnicodeData : Type := {
  uni_isalpha : codepoint -> bool;
  uni_isdigit : codepoint -> bool;
  uni_isalnum : codepoint -> bool;
  uni_isupper : codepoint -> bool;
  uni_decimal : codepoint -> option Z;
  uni_upper : codepoint -> str;
  uni_capitalize : str -> str
}.

(** A table with ASCII only and, beyond it, SUPERSCRIPT TWO (U+00B2): a
    digit for [str.isdigit] that [int()] does not accept. *)
Definition ucd_sample : UnicodeData := {|
  uni_isalpha := fun _ => false;
  uni_isdigit := fun c => c =? 0xB2;
  uni_isalnum := fun c => c =? 0xB2;
  uni_isupper := fun _ => false;
  uni_decimal := fun _ => None;
  uni_upper := fun c => [c];
  uni_capitalize := fun s => s
|}.

(* ===================================================================== *)
(** ** The metadata classifier (lines 66-197 of the source) *)

Record ManifestMetadata : Type := {
  package : option str;
  versionName : option str;
  versionCode : option str;
  appLabel : option str;
  permissions : list str
}.

(** The text under the ['error'] key. *)
Inductive message : Type :=
| FileTooSmall        (* 'File too small' *)
| StrOf (e : exn).    (* [str(e)] of a caught exception *)

(** The dictionary [parse_binary_xml] returns. *)
Inductive dict : Type :=
| Manifest (m : ManifestMetadata)
| ErrorDict (msg : message).

Section Classifier.

Variable U : UnicodeData.

Definition isdigit (c : codepoint) : bool :=
  if is_ascii c then ascii_isdigit c else uni_isdigit U c.
Definition isalpha (c : codepoint) : bool :=
  if is_ascii c then ascii_isalpha c else uni_isalpha U c.
Definition isalnum (c : codepoint) : bool :=
  if is_ascii c then ascii_isalpha c || ascii_isdigit c else uni_isalnum U c.
Definition isupper (c : codepoint) : bool :=
  if is_ascii c then ascii_isupper c else uni_isupper U c.

(** [s.isdigit()], [s.isalpha()]: false on the empty string. *)
Definition str_isdigit (s : str) : bool :=
  match s with [] => false | _ :: _ => forallb isdigit s end.
Definition str_isalpha (s : str) : bool :=
  match s with [] => false | _ :: _ => forallb isalpha s end.

(** [s.upper()] *)
Definition upper (s : str) : str :=
  flat_map (fun c => if is_ascii c then [ascii_upper c] else uni_upper U c) s.

(** [s.capitalize()] *)
Definition capitalize (s : str) : str :=
  if forallb is_ascii s then
    match s with
    | [] => []
    | c :: rest => ascii_upper c :: map ascii_lower rest
    end
  else uni_capitalize U s.

(** [int(s)] for a string [s] with [s.isdigit()]: the decimal value, or
    [ValueError] when a character is a digit that is not a decimal one. *)
Definition decimal (c : codepoint) : option Z :=
  if is_ascii c then (if ascii_isdigit c then Some (c - 48) else None)
  else uni_decimal U c.

Fixpoint digits_value (s : str) (acc : Z) : option Z :=
  match s with
  | [] => Some acc
  | c :: rest =>
      match decimal c with
      | Some d => digits_value rest (acc * 10 + d)
      | None => None
      end
  end.

Definition int (s : str) : result Z :=
  match digits_value s 0 with
  | Some n => Return n
  | None => Raise (ValueError s)
  end.

(** *** Lines 74-81: the tag indices (computed, never used) *)

Fixpoint tag_indices (strings : list str) (i uses_permission_idx android_name_idx : Z)
  : Z * Z :=
  match strings with
  | [] => (uses_permission_idx, android_name_idx)
  | s :: rest =>
      let uses_permission_idx :=
        if str_eqb s (lit "uses-permission") then i else uses_permission_idx in
      let android_name_idx :=
        if str_eqb s (lit "name") && (0 <=? uses_permission_idx) then i
        else android_name_idx in
      tag_indices rest (i + 1) uses_permission_idx android_name_idx
  end.

(** *** Lines 85-96: permissions *)

Definition is_permission (s : str) : bool :=
  if startswith s (lit "android.permission.") then true
  else if contains s (lit ".permission.")
          && negb (endswith s (lit "Activity"))
          && negb (endswith s (lit "Service"))
          && negb (endswith s (lit "Receiver"))
          && negb (endswith s (lit "Provider"))
       then true
       else false.

(** [s in permissions] *)
Definition mem (s : str) (l : list str) : bool := existsb (str_eqb s) l.

Definition collect_permissions (strings : list str) : list str :=
  fold_left
    (fun permissions s =>
       if is_permission s && negb (mem s permissions)
       then permissions ++ [s] else permissions)
    strings [].

(** *** Lines 104-157: the application label *)

Definition excluded_labels : list str :=
  map lit
    ["name"; "label"; "application"; "activity"; "service"; "receiver"; "provider";
     "RELEASE"; "DEBUG"; "MAIN"; "VERSION"; "SDK"; "MIN"; "MAX"; "TARGET";
     "true"; "false"; "null"; "value"; "config"; "default"; "string"; "layout";
     "drawable"; "color"; "dimen"; "style"; "array"; "integer"; "bool"; "id";
     "attr"; "anim"; "menu"; "raw"; "xml"; "font"; "navigation"; "transition"]%string.

(** [s.upper() not in [e.upper() for e in excluded_labels]] is [negb (excluded s)]. *)
Definition excluded (s : str) : bool := mem (upper s) (map upper excluded_labels).

(** Lines 111-115: index of the first ['application'], [-1] without one. *)
Fixpoint find_application (strings : list str) (i : Z) : Z :=
  match strings with
  | [] => -1
  | s :: rest =>
      if str_eqb s (lit "application") then i else find_application rest (i + 1)
  end.

(** Lines 122-129. *)
Definition proximity_cond (s : str) : bool :=
  (2 <=? len s) && (len s <=? 50)
  && negb (contains s (lit "/"))
  && negb (startswith s (lit "android"))
  && negb (startswith s (lit "com."))
  && negb (startswith s (lit "@"))
  && negb (endswith s (lit ".xml"))
  && negb (existsb isdigit s)
  && negb (excluded s).

(** Lines 120-132. *)
Fixpoint proximity_loop (strings : list str) (app_index : Z) (offsets : list Z)
  : result (option str) :=
  match offsets with
  | [] => Return None
  | offset :: rest =>
      s <- getitem strings (app_index + offset) ;;
      if proximity_cond s then
        c <- getitem s 0 ;;
        if isupper c then Return (Some s)
        else proximity_loop strings app_index rest
      else proximity_loop strings app_index rest
  end.

(** Lines 111-132. *)
Definition label_proximity (strings : list str) : result (option str) :=
  let app_index := find_application strings 0 in
  if 0 <=? app_index then
    proximity_loop strings app_index (range 1 (Z.min 21 (len strings - app_index)))
  else Return None.

(** Lines 137-143. *)
Definition global_cond (s : str) : bool :=
  (3 <=? len s) && (len s <=? 50)
  && negb (contains s (lit "/")) && negb (contains s (lit "."))
  && negb (startswith s (lit "android"))
  && negb (startswith s (lit "com."))
  && negb (startswith s (lit "@"))
  && negb (endswith s (lit ".xml"))
  && negb (excluded s).

(** Lines 136-147. *)
Fixpoint global_loop (strings : list str) (app_label : option str)
  : result (option str) :=
  match strings with
  | [] => Return app_label
  | s :: rest =>
      if global_cond s then
        c <- getitem s 0 ;;
        if isupper c && contains s (lit " ") then Return (Some s)
        else global_loop rest app_label
      else global_loop rest app_label
  end.

(** Lines 151-157. *)
Fixpoint fallback_loop (strings : list str) (app_label : option str)
  : result (option str) :=
  match strings with
  | [] => Return app_label
  | s :: rest =>
      if (3 <=? len s) && (len s <=? 30) then
        c <- getitem s 0 ;;
        if isupper c && str_isalpha s && negb (excluded s) then Return (Some s)
        else fallback_loop rest app_label
      else fallback_loop rest app_label
  end.

(** Lines 104-157: the three passes. *)
Definition find_label (strings : list str) : result (option str) :=
  app_label <- label_proximity strings ;;
  app_label <- (if negb (truthy app_label) then global_loop strings app_label
                else Return app_label) ;;
  if negb (truthy app_label) then fallback_loop strings app_label
  else Return app_label.

(** *** Lines 159-173: package name and version name *)

(** Line 172: the transformed form of a version candidate. *)
Definition version_digits (s : str) : str :=
  let t := remove_char (remove_char (remove_char s DOT) DASH) UNDERSCORE in
  let t := firstn 5 t in
  remove_pair (remove_char (remove_char t CHAR_b) CHAR_a) CHAR_r CHAR_c.

Definition package_version_step (st : option str * option str) (s : str)
  : result (option str * option str) :=
  let '(package_name, version_name) := st in
  package_name <-
    (if negb (truthy package_name) && contains s (lit ".")
        && (5 <? len s) && (len s <? 200)
     then
       if (2 <=? count s DOT) && existsb isalpha s
          && forallb (fun c => isalnum c || (c =? DOT) || (c =? UNDERSCORE)) s
       then
         c <- getitem s 0 ;;
         if negb (isdigit c) && negb (startswith s (lit "android.permission."))
         then Return (Some s) else Return package_name
       else Return package_name
     else Return package_name) ;;
  version_name <-
    (if negb (truthy version_name) && (len s <? 50) && contains s (lit ".")
     then
       c <- getitem s 0 ;;
       if isdigit c && str_isdigit (version_digits s)
       then Return (Some s) else Return version_name
     else Return version_name) ;;
  Return (package_name, version_name).

Definition package_version_loop (strings : list str)
  : result (option str * option str) :=
  foldM package_version_step strings (None, None).

(** *** Lines 176-179: version code *)

Definition version_code_step (version_code : option str) (s : str)
  : result (option str) :=
  if str_isdigit s && (5 <=? len s) && (len s <=? 10) then
    match version_code with
    | Some ((_ :: _) as v) =>
        n <- int s ;;
        m <- int v ;;
        if m <? n then Return (Some s) else Return version_code
    | _ => Return (Some s)
    end
  else Return version_code.

Definition version_code_loop (strings : list str) : result (option str) :=
  foldM version_code_step strings None.

(** *** Lines 182-189: the label synthesized from the package name *)

Definition synthesize_label (app_label package_name : option str)
  : result (option str) :=
  if negb (truthy app_label) && truthy package_name then
    match package_name with
    | Some p =>
        let parts := split p DOT in
        if 0 <? len parts then
          last_part <- getitem parts (-1) ;;
          Return (Some (capitalize last_part))
        else Return app_label
    | None => Return app_label
    end
  else Return app_label.

(** *** Lines 66-197 *)

Definition classify (strings : list str) : result dict :=
  let '(uses_permission_idx, android_name_idx) := tag_indices strings 0 (-1) (-1) in
  let permissions := collect_permissions strings in
  app_label <- find_label strings ;;
  '(package_name, version_name) <- package_version_loop strings ;;
  version_code <- version_code_loop strings ;;
  app_label <- synthesize_label app_label package_name ;;
  Return (Manifest {| package := package_name;
                      versionName := version_name;
                      versionCode := version_code;
                      appLabel := app_label;
                      permissions := permissions |}).

(* ===================================================================== *)
(** ** [parse_binary_xml] (lines 18-199) *)

(** The body of the [try] block. *)
Definition parse_body (fuel : nat) (data : bytes) : option (result dict) :=
  if len data <? 8 then Some (Return (ErrorDict FileTooSmall))
  else
    match (magic <- unpack_I (slice data 0 4) ;;
           file_size <- unpack_I (slice data 4 8) ;;
           Return (magic, file_size)) with
    | Raise e => Some (Raise e)
    | Return _ =>
        match scan_chunks fuel data 8 with
        | None => None
        | Some (Raise e) => Some (Raise e)
        | Some (Return strings) => Some (classify strings)
        end
    end.

(** [try: ... except Exception as e: return {'error': str(e)}] *)
Definition parse_with_fuel (fuel : nat) (data : bytes) : option dict :=
  match parse_body fuel data with
  | None => None
  | Some (Return d) => Some d
  | Some (Raise e) => Some (ErrorDict (StrOf e))
  end.

(** The function itself: the loops get one unit of fuel per byte, and one
    more. *)
Definition parse_binary_xml (data : bytes) : option dict :=
  parse_with_fuel (S (length data)) data.

End Classifier.

(* ===================================================================== *)
(** ** [main] (lines 214-228): what is printed for a parsed manifest *)

(** [result.get(key)] for one of the four text keys: [None] when the
    dictionary is the error dictionary, which has none of them. *)
Definition dict_get (result : dict) (key : ManifestMetadata -> option str)
  : option str :=
  match result with
  | Manifest m => key m
  | ErrorDict _ => None
  end.

(** [result.get('permissions')], with [None] read as no permission. *)
Definition dict_permissions (result : dict) : list str :=
  match result with
  | Manifest m => permissions m
  | ErrorDict _ => []
  end.

(** [if result.get(key): print(f"<label>{result[key]}")] *)
Definition print_field (label : string) (value : option str) : list str :=
  match value with
  | Some ((_ :: _) as v) => [lit label ++ v]
  | _ => []
  end.

(** The line of line 228. *)
Definition NO_PACKAGE : str := lit "error: Could not parse package name".

(** Lines 214-228: the arguments of the [print] calls, in order. *)
Definition print_result (result : dict) : list str :=
  print_field "package:" (dict_get result package)
  ++ print_field "versionName:" (dict_get result versionName)
  ++ print_field "versionCode:" (dict_get result versionCode)
  ++ print_field "appLabel:" (dict_get result appLabel)
  ++ map (fun permission => lit "permission:" ++ permission) (dict_permissions result)
  ++ (if negb (truthy (dict_get result package)) then [NO_PACKAGE] else []).

(** Lines 211-228: what [main] prints once the archive gave the bytes of
    [AndroidManifest.xml]. *)
Definition main_output (U : UnicodeData) (manifest_data : bytes)
  : option (list str) :=
  match parse_binary_xml U manifest_data with
  | Some result => Some (print_result result)
  | None => None
  end.

(* ===================================================================== *)
(** ** [get_string] (lines 11-16) *)

(** A start index as [bytes.find] and slicing read it: a negative one
    counts from the end and is clipped at 0. *)
Definition clip_start (data : bytes) (start : Z) : Z :=
  if start <? 0 then Z.max 0 (start + len data) else start.

(** Index of the first [b] in [l]. *)
Fixpoint index_of (b : Byte.byte) (l : bytes) : option Z :=
  match l with
  | [] => None
  | x :: rest =>
      if Byte.eqb x b then Some 0
      else match index_of b rest with
           | Some k => Some (k + 1)
           | None => None
           end
  end.

(** [data.find(bytes([b]), start)]: [-1] when there is none. *)
Definition bytes_find (data : bytes) (b : Byte.byte) (start : Z) : Z :=
  let s := clip_start data start in
  match index_of b (skipn (Z.to_nat s) data) with
  | Some k => s + k
  | None => -1
  end.

Section GetString.

(** [b.decode('utf-8', errors='ignore')] of the Python runtime. *)
Variable decode_utf8 : bytes -> str.

Definition get_string (data : bytes) (offset : Z) : str :=
  let end_ := bytes_find data Byte.x00 offset in
  if end_ =? -1 then
    decode_utf8 (skipn (Z.to_nat (clip_start data offset)) data)
  else
    decode_utf8 (slice data (clip_start data offset) end_).

End GetString.

(* ===================================================================== *)
(** * Notions the properties are stated with *)

(** The cursor positions the [while] loop visits. *)
Inductive reaches (data : bytes) : Z -> Prop :=
| reaches_start : reaches data 8
| reaches_next (o o' : Z) :
    reaches data o -> chunk_step data o = Return (Next o') -> reaches data o'.

(** The loop meets the string-pool marker at [o]. *)
Definition pool_at (data : bytes) (o : Z) : Prop :=
  reaches data o /\ chunk_step data o = Return Pool.

(** The [string_count] field and the whole offset table of the pool chunk
    at [o] lie inside the buffer. *)
Definition table_fits (data : bytes) (o : Z) : Prop :=
  exists n, unpack_I (slice data (o + 8) (o + 12)) = Return n /\
            (n = 0 \/ o + 28 + 4 * n <= len data).

(** The [string_count] field, or the offset table it announces, runs past
    the end of the buffer. *)
Definition table_truncated (data : bytes) (o : Z) : Prop :=
  len data < o + 12 \/
  exists n, unpack_I (slice data (o + 8) (o + 12)) = Return n /\
            0 < n /\ len data < o + 28 + 4 * n.

(** A list with every element kept at its first occurrence only. *)
Fixpoint first_occurrences (l : list str) : list str :=
  match l with
  | [] => []
  | x :: rest => x :: filter (fun y => negb (str_eqb y x)) (first_occurrences rest)
  end.

(** The permission test in the words of the specification. *)
Definition PermissionString (s : str) : Prop :=
  (exists t, s = lit "android.permission." ++ t) \/
  ((exists a b, s = a ++ lit ".permission." ++ b) /\
   ~ (exists t, s = t ++ lit "Activity") /\
   ~ (exists t, s = t ++ lit "Service") /\
   ~ (exists t, s = t ++ lit "Receiver") /\
   ~ (exists t, s = t ++ lit "Provider")).

(** A test on the first character of a string (false on the empty one). *)
Definition first_char (p : codepoint -> bool) (s : str) : bool :=
  match s with
  | c :: _ => p c
  | [] => false
  end.

(** A package-name candidate: contains ['.'], length strictly between 5
    and 200, at least two dots, an alphabetic character, only
    alphanumerics, ['.'] and ['_'], no leading digit, not a permission. *)
Definition package_ok (U : UnicodeData) (s : str) : bool :=
  contains s (lit ".") && (5 <? len s) && (len s <? 200)
  && (2 <=? count s DOT)
  && existsb (isalpha U) s
  && forallb (fun c => isalnum U c || (c =? DOT) || (c =? UNDERSCORE)) s
  && first_char (fun c => negb (isdigit U c)) s
  && negb (startswith s (lit "android.permission.")).

(** A version-name candidate: shorter than 50, contains ['.'], leading
    digit, and a transformed form made of digits only. *)
Definition version_ok (U : UnicodeData) (s : str) : bool :=
  (len s <? 50) && contains s (lit ".")
  && first_char (isdigit U) s
  && forallb (isdigit U) (version_digits s).

(** What a first-match variable holds after the loop has seen [l]. *)
Definition first_match (f : str -> bool) (l : list str) (v : option str)
  : option str :=
  if truthy v then v
  else match find f l with
       | Some s => Some s
       | None => v
       end.

(** A proximity-pass candidate: the conditions of lines 122-129 and a
    leading upper-case letter. *)
Definition proximity_ok (U : UnicodeData) (s : str) : bool :=
  proximity_cond U s && first_char (isupper U) s.

(** A global-pass candidate (lines 137-145). *)
Definition global_ok (U : UnicodeData) (s : str) : bool :=
  global_cond U s && first_char (isupper U) s && contains s (lit " ").

(** A fallback-pass candidate (lines 152-155). *)
Definition fallback_ok (U : UnicodeData) (s : str) : bool :=
  (3 <=? len s) && (len s <=? 30) && first_char (isupper U) s
  && str_isalpha U s && negb (excluded U s).

(** The strings after the first ['application']. *)
Fixpoint after_application (strings : list str) : list str :=
  match strings with
  | [] => []
  | s :: rest =>
      if str_eqb s (lit "application") then rest else after_application rest
  end.

(** The window of the proximity pass: the next 20 strings at most. *)
Definition proximity_window (strings : list str) : list str :=
  firstn 20 (after_application strings).

(** [a], or [b] when [a] is [None]. *)
Definition or_else (a b : option str) : option str :=
  match a with
  | Some s => Some s
  | None => b
  end.

(** The last dot-separated segment of a string. *)
Definition last_segment (p : str) : str := last (split p DOT) [].

(** The label after lines 182-189. *)
Definition final_label (U : UnicodeData) (app_label package_name : option str)
  : option str :=
  if negb (truthy app_label) && truthy package_name then
    match package_name with
    | Some p => Some (capitalize U (last_segment p))
    | None => app_label
    end
  else app_label.

(** What the caller gets for a result of the [try] body. *)
Definition handled (r : result dict) : dict :=
  match r with
  | Return d => d
  | Raise e => ErrorDict (StrOf e)
  end.

(** The record with nothing found. *)
Definition empty_metadata : ManifestMetadata :=
  {| package := None; versionName := None; versionCode := None;
     appLabel := None; permissions := [] |}.

(** ['/'] *)
Definition SLASH : codepoint := 47.

(** A package-name candidate, condition by condition. *)
Definition PackageCandidate (U : UnicodeData) (s : str) : Prop :=
  In DOT s /\
  5 < len s /\ len s < 200 /\
  2 <= count s DOT /\
  (exists c, In c s /\ isalpha U c = true) /\
  (forall c, In c s -> isalnum U c = true \/ c = DOT \/ c = UNDERSCORE) /\
  (exists c r, s = c :: r /\ isdigit U c = false) /\
  ~ (exists t, s = lit "android.permission." ++ t).

(** A version-name candidate, condition by condition. *)
Definition VersionCandidate (U : UnicodeData) (s : str) : Prop :=
  len s < 50 /\
  In DOT s /\
  (exists c r, s = c :: r /\ isdigit U c = true) /\
  (forall c, In c (version_digits s) -> isdigit U c = true).

(** A proximity-pass candidate, condition by condition. *)
Definition ProximityCandidate (U : UnicodeData) (s : str) : Prop :=
  2 <= len s /\ len s <= 50 /\
  ~ In SLASH s /\
  ~ (exists t, s = lit "android" ++ t) /\
  ~ (exists t, s = lit "com." ++ t) /\
  ~ (exists t, s = lit "@" ++ t) /\
  ~ (exists t, s = t ++ lit ".xml") /\
  (forall c, In c s -> isdigit U c = false) /\
  ~ In (upper U s) (map (upper U) excluded_labels) /\
  (exists c r, s = c :: r /\ isupper U c = true).

(** A version-code candidate: digits only, 5 to 10 characters. *)
Definition code_ok (U : UnicodeData) (s : str) : bool :=
  str_isdigit U s && (5 <=? len s) && (len s <=? 10).

(** The number [int()] reads, when it reads one. *)
Definition int_value (U : UnicodeData) (s : str) : option Z := digits_value U s 0.

(** A global-pass candidate, condition by condition. *)
Definition GlobalCandidate (U : UnicodeData) (s : str) : Prop :=
  3 <= len s /\ len s <= 50 /\
  ~ In SLASH s /\ ~ In DOT s /\
  ~ (exists t, s = lit "android" ++ t) /\
  ~ (exists t, s = lit "com." ++ t) /\
  ~ (exists t, s = lit "@" ++ t) /\
  ~ (exists t, s = t ++ lit ".xml") /\
  ~ In (upper U s) (map (upper U) excluded_labels) /\
  (exists c r, s = c :: r /\ isupper U c = true) /\
  In 32 s.

(** A fallback-pass candidate, condition by condition. *)
Definition FallbackCandidate (U : UnicodeData) (s : str) : Prop :=
  3 <= len s /\ len s <= 30 /\
  (exists c r, s = c :: r /\ isupper U c = true) /\
  (forall c, In c s -> isalpha U c = true) /\
  ~ In (upper U s) (map (upper U) excluded_labels).

(** Two buffers that differ in their first 8 bytes at most. *)
Definition same_after_header (data data' : bytes) : Prop :=
  len data = len data' /\
  forall lo hi, 8 <= lo -> slice data lo hi = slice data' lo hi.


(** ** Concrete inputs *)

(** A buffer whose string-pool chunk ends right after its type and size
    fields: 8 header bytes, the marker [0x001C0001], a size, one byte. *)
Definition truncated_pool : bytes :=
  bytes_of [0; 0; 0; 0; 0; 0; 0; 0;  1; 0; 28; 0;  0; 0; 0; 0;  7].

(** Strings of the examples. *)
Definition INTERNET : str := lit "android.permission.INTERNET".
Definition CAMERA : str := lit "android.permission.CAMERA".
Definition MYAPP : str := lit "com.example.myapp".
Definition MAIN_ACTIVITY : str := lit "com.example.myapp.MainActivity".

(** SUPERSCRIPT TWO, U+00B2. *)
Definition SUPERSCRIPT_TWO : codepoint := 0xB2.

(** Five times SUPERSCRIPT TWO: [str.isdigit] accepts it, [int()] does not. *)
Definition superscripts : str :=
  [SUPERSCRIPT_TWO; SUPERSCRIPT_TWO; SUPERSCRIPT_TWO; SUPERSCRIPT_TWO; SUPERSCRIPT_TWO].

(** A well-formed buffer of 68 bytes: header, one string-pool chunk with
    two strings, [superscripts] and ['12345'], in UTF-16LE. *)
Definition superscript_pool : bytes :=
  bytes_of
    [3; 0; 8; 0;  68; 0; 0; 0;
     1; 0; 28; 0;  60; 0; 0; 0;  2; 0; 0; 0;
     0; 0; 0; 0;  0; 0; 0; 0;  0; 0; 0; 0;  0; 0; 0; 0;
     0; 0; 0; 0;  12; 0; 0; 0;
     5; 0;  178; 0; 178; 0; 178; 0; 178; 0; 178; 0;
     5; 0;  49; 0; 50; 0; 51; 0; 52; 0; 53; 0].

Definition MY_COOL_APP : str := lit "MyCoolApp".

Definition DEMO_PACKAGE : str := lit "com.example.demo".

(* ===================================================================== *)
(** * Properties *)

(** ** Lists, slices and buffers *)

Lemma len_nonneg {A : Type} (l : list A) : 0 <= len l.
Proof. unfold len. lia. Qed.

Lemma len_app {A : Type} (l1 l2 : list A) : len (l1 ++ l2) = len l1 + len l2.
Proof. unfold len. rewrite length_app. lia. Qed.

Lemma len_cons {A : Type} (x : A) (l : list A) : len (x :: l) = len l + 1.
Proof. unfold len. simpl length. lia. Qed.

Lemma slice_length {A : Type} (data : list A) (lo hi : Z) :
  0 <= lo -> lo <= hi ->
  len (slice data lo hi) = Z.max 0 (Z.min (hi - lo) (len data - lo)).
Proof.
  intros Hlo Hhi. unfold slice, len.
  rewrite length_firstn, length_skipn.
  rewrite Nat2Z.inj_min, Nat2Z.inj_sub_max, !Z2Nat.id by lia. lia.
Qed.

Lemma byte_val_range (b : Byte.byte) : 0 <= byte_val b < 256.
Proof.
  unfold byte_val. pose proof (Byte.to_N_bounded b) as H. lia.
Qed.

Lemma unpack_I_length (b : bytes) :
  len b = 4 -> exists n, unpack_I b = Return n /\ 0 <= n.
Proof.
  intros H. unfold len in H.
  destruct b as [|b0 [|b1 [|b2 [|b3 [|b4 b]]]]]; simpl in H; try lia.
  eexists. split; [reflexivity|].
  pose proof (byte_val_range b0). pose proof (byte_val_range b1).
  pose proof (byte_val_range b2). pose proof (byte_val_range b3). lia.
Qed.

Lemma unpack_I_short (b : bytes) :
  len b <> 4 -> unpack_I b = Raise (StructError 4).
Proof.
  intros H. unfold len in H.
  destruct b as [|b0 [|b1 [|b2 [|b3 [|b4 b]]]]]; simpl in *; try reflexivity; lia.
Qed.

Lemma unpack_I_inv (b : bytes) (n : Z) :
  unpack_I b = Return n -> len b = 4 /\ 0 <= n.
Proof.
  intros H. destruct (Z.eq_dec (len b) 4) as [E|E].
  - destruct (unpack_I_length b E) as [m [Hm Hp]]. split; [exact E|]. congruence.
  - rewrite (unpack_I_short b E) in H. discriminate.
Qed.

Lemma unpack_I_raise (b : bytes) (e : exn) :
  unpack_I b = Raise e -> e = StructError 4.
Proof.
  intros H. destruct (Z.eq_dec (len b) 4) as [E|E].
  - destruct (unpack_I_length b E) as [m [Hm _]]. congruence.
  - rewrite (unpack_I_short b E) in H. congruence.
Qed.

Lemma unpack_H_length (b : bytes) :
  len b = 2 -> exists n, unpack_H b = Return n.
Proof.
  intros H. unfold len in H.
  destruct b as [|b0 [|b1 [|b2 b]]]; simpl in H; try lia.
  eexists. reflexivity.
Qed.

(** A four-byte read inside the buffer succeeds; one that crosses its end
    raises [struct.error]. *)
Lemma read_u32_inside (data : bytes) (lo : Z) :
  0 <= lo -> lo + 4 <= len data ->
  exists n, unpack_I (slice data lo (lo + 4)) = Return n /\ 0 <= n.
Proof.
  intros H1 H2. apply unpack_I_length. rewrite slice_length by lia. lia.
Qed.

Lemma read_u32_across (data : bytes) (lo : Z) :
  0 <= lo -> len data < lo + 4 ->
  unpack_I (slice data lo (lo + 4)) = Raise (StructError 4).
Proof.
  intros H1 H2. apply unpack_I_short. rewrite slice_length by lia.
  pose proof (len_nonneg data). lia.
Qed.

(** ** The loops of the scanner *)

(** One evaluation of the loop head, case by case. *)
Lemma chunk_step_stop (data : bytes) (offset : Z) :
  len data - 8 <= offset -> chunk_step data offset = Return Stop.
Proof.
  intros H. unfold chunk_step.
  destruct (offset <? len data - 8) eqn:E; [apply Z.ltb_lt in E; lia | reflexivity].
Qed.

Lemma chunk_step_inside (data : bytes) (offset : Z) :
  0 <= offset -> offset < len data - 8 ->
  exists chunk_type chunk_size,
    unpack_I (slice data offset (offset + 4)) = Return chunk_type /\
    unpack_I (slice data (offset + 4) (offset + 8)) = Return chunk_size /\
    0 <= chunk_size /\
    chunk_step data offset =
      if chunk_type =? STRING_POOL then Return Pool
      else Return (Next (offset + (if 0 <? chunk_size then chunk_size else 1))).
Proof.
  intros H0 H. unfold chunk_step.
  destruct (offset <? len data - 8) eqn:E; [|apply Z.ltb_ge in E; lia].
  destruct (read_u32_inside data offset) as [t [Ht _]]; [lia | lia |].
  destruct (read_u32_inside data (offset + 4)) as [s [Hs Hs0]]; [lia | lia |].
  replace (offset + 4 + 4) with (offset + 8) in Hs by lia.
  exists t, s. rewrite Ht, Hs. simpl. auto.
Qed.

Lemma chunk_step_next (data : bytes) (offset offset' : Z) :
  chunk_step data offset = Return (Next offset') ->
  offset < offset' /\ offset < len data - 8 /\
  exists chunk_size,
    unpack_I (slice data (offset + 4) (offset + 8)) = Return chunk_size /\
    offset' = offset + (if 0 <? chunk_size then chunk_size else 1).
Proof.
  unfold chunk_step. intros H.
  destruct (offset <? len data - 8) eqn:E; [|discriminate].
  apply Z.ltb_lt in E.
  destruct (unpack_I (slice data offset (offset + 4))) as [t|e]; [|discriminate].
  destruct (unpack_I (slice data (offset + 4) (offset + 8))) as [s|e]; [|discriminate].
  simpl in H. destruct (t =? STRING_POOL); [discriminate|].
  injection H as H. subst offset'.
  split; [|split; [exact E|exists s; split; reflexivity]].
  destruct (0 <? s) eqn:Es; [apply Z.ltb_lt in Es|]; lia.
Qed.

Lemma chunk_step_pool (data : bytes) (offset : Z) :
  chunk_step data offset = Return Pool -> offset < len data - 8.
Proof.
  unfold chunk_step. intros H.
  destruct (offset <? len data - 8) eqn:E; [apply Z.ltb_lt in E; exact E | discriminate].
Qed.

Lemma chunk_step_no_raise (data : bytes) (offset : Z) (e : exn) :
  0 <= offset -> chunk_step data offset <> Raise e.
Proof.
  intros H0 H.
  destruct (Z_lt_ge_dec offset (len data - 8)) as [L|G].
  - destruct (chunk_step_inside data offset H0 L) as [t [s [_ [_ [_ Hst]]]]].
    rewrite Hst in H. destruct (t =? STRING_POOL); discriminate.
  - rewrite chunk_step_stop in H by lia. discriminate.
Qed.

(** The offset-table loop stops: every pass that does not raise has read
    four more bytes of the buffer. *)
Lemma read_offsets_terminates (fuel : nat) (data : bytes)
    (offset string_count i : Z) (offsets : list Z) :
  0 <= offset -> 0 <= i -> (1 <= fuel)%nat ->
  len data - offset - 28 - 4 * i < 4 * Z.of_nat fuel ->
  exists r, read_offsets fuel data offset string_count i offsets = Some r.
Proof.
  revert i offsets.
  induction fuel as [|fuel IH]; intros i offsets Ho Hi Hf Hlen; [lia|].
  simpl. destruct (i <? string_count); [|eauto].
  destruct (unpack_I (slice data (offset + 28 + i * 4) (offset + 32 + i * 4))) as [n|e] eqn:E;
    [|eauto].
  apply unpack_I_inv in E. destruct E as [E _].
  rewrite slice_length in E by lia.
  apply IH; lia.
Qed.

(** The chunk loop stops: the cursor moves forward at every pass. *)
Lemma scan_chunks_terminates (fuel : nat) (data : bytes) (offset : Z) :
  0 <= offset -> (1 <= fuel)%nat -> len data - offset <= Z.of_nat fuel ->
  exists r, scan_chunks fuel data offset = Some r.
Proof.
  revert offset.
  induction fuel as [|fuel IH]; intros offset Ho Hf Hlen; [lia|].
  simpl. destruct (chunk_step data offset) as [[| |offset']|e] eqn:E; eauto.
  - apply chunk_step_pool in E. unfold read_string_pool.
    destruct (unpack_I (slice data (offset + 8) (offset + 12))) as [n|e]; [|eauto].
    destruct (read_offsets_terminates fuel data offset n 0 [])
      as [r Hr]; try lia.
    rewrite Hr. destruct r; eauto.
  - apply chunk_step_next in E. destruct E as [E1 [E2 _]].
    apply IH; lia.
Qed.

Lemma read_offsets_more_fuel (fuel fuel' : nat) (data : bytes)
    (offset string_count i : Z) (offsets : list Z) (r : result (list Z)) :
  (fuel <= fuel')%nat ->
  read_offsets fuel data offset string_count i offsets = Some r ->
  read_offsets fuel' data offset string_count i offsets = Some r.
Proof.
  revert fuel' i offsets.
  induction fuel as [|fuel IH]; intros fuel' i offsets Hle H; [discriminate|].
  destruct fuel' as [|fuel']; [lia|].
  simpl in *. destruct (i <? string_count); [|exact H].
  destruct (unpack_I _); [|exact H].
  apply IH; [lia | exact H].
Qed.

Lemma scan_chunks_more_fuel (fuel fuel' : nat) (data : bytes) (offset : Z)
    (r : result (list str)) :
  (fuel <= fuel')%nat ->
  scan_chunks fuel data offset = Some r ->
  scan_chunks fuel' data offset = Some r.
Proof.
  revert fuel' offset.
  induction fuel as [|fuel IH]; intros fuel' offset Hle H; [discriminate|].
  destruct fuel' as [|fuel']; [lia|].
  simpl in *. destruct (chunk_step data offset) as [[| |offset']|e]; try exact H.
  - unfold read_string_pool in *.
    destruct (unpack_I _) as [n|e]; [|exact H].
    destruct (read_offsets fuel data offset n 0 []) as [ro|] eqn:E; [|discriminate].
    rewrite (read_offsets_more_fuel fuel fuel' _ _ _ _ _ ro) by (lia || exact E).
    exact H.
  - apply IH; [lia | exact H].
Qed.

(** ** Where the scan finds the string pool *)

Lemma reaches_lower (data : bytes) (o : Z) : reaches data o -> 8 <= o.
Proof.
  induction 1 as [|o o' _ IH Hs]; [lia|].
  apply chunk_step_next in Hs. lia.
Qed.

Lemma pool_at_lower (data : bytes) (o : Z) :
  pool_at data o -> 8 <= o /\ o < len data - 8.
Proof.
  intros [Hr Hp]. split; [apply (reaches_lower data o Hr) | apply (chunk_step_pool data o Hp)].
Qed.

Lemma table_fits_or_truncated (data : bytes) (o : Z) :
  0 <= o -> table_fits data o \/ table_truncated data o.
Proof.
  intros Ho. destruct (Z_lt_ge_dec (len data) (o + 12)) as [L|G].
  - right. left. exact L.
  - destruct (read_u32_inside data (o + 8)) as [n [Hn Hn0]]; [lia | lia |].
    replace (o + 8 + 4) with (o + 12) in Hn by lia.
    destruct (Z.eq_dec n 0) as [E|E].
    + left. exists n. auto.
    + destruct (Z_le_gt_dec (o + 28 + 4 * n) (len data)).
      * left. exists n. auto.
      * right. right. exists n. repeat split; [exact Hn | lia | lia].
Qed.

Lemma table_fits_not_truncated (data : bytes) (o : Z) :
  0 <= o -> table_fits data o -> table_truncated data o -> False.
Proof.
  intros Ho [n [Hn Hfit]] [L|[m [Hm [Hpos Hlen]]]].
  - apply unpack_I_inv in Hn. destruct Hn as [Hn _].
    rewrite slice_length in Hn by lia. lia.
  - rewrite Hn in Hm. injection Hm as ->. lia.
Qed.

(** The loop started at 8 arrives at every position it reaches, with fuel
    to spare. *)
Lemma scan_chunks_reaches (data : bytes) (o : Z) :
  reaches data o ->
  forall fuel : nat,
    (1 <= fuel)%nat -> len data - 8 <= Z.of_nat fuel ->
    exists fuel' : nat,
      (1 <= fuel')%nat /\ len data - o <= Z.of_nat fuel' /\
      scan_chunks fuel data 8 = scan_chunks fuel' data o.
Proof.
  induction 1 as [|o o' Hr IH Hs]; intros fuel H1 H2.
  - exists fuel. auto.
  - destruct (IH fuel H1 H2) as [f [F1 [F2 F3]]].
    destruct f as [|f]; [lia|].
    pose proof (chunk_step_next data o o' Hs) as [L1 [L2 _]].
    exists f. rewrite F3. simpl. rewrite Hs.
    repeat split; lia.
Qed.

Lemma read_offsets_raise (fuel : nat) (data : bytes)
    (offset string_count i : Z) (offsets : list Z) (e : exn) :
  0 <= offset -> 0 <= i ->
  read_offsets fuel data offset string_count i offsets = Some (Raise e) ->
  e = StructError 4 /\ 0 < string_count /\ len data < offset + 28 + 4 * string_count.
Proof.
  revert i offsets.
  induction fuel as [|fuel IH]; intros i offsets Ho Hi H; [discriminate|].
  simpl in H. destruct (i <? string_count) eqn:Ei; [|discriminate].
  apply Z.ltb_lt in Ei.
  destruct (unpack_I (slice data (offset + 28 + i * 4) (offset + 32 + i * 4))) as [n|e'] eqn:E.
  - apply IH in H; [exact H | lia | lia].
  - injection H as ->.
    pose proof (unpack_I_raise _ _ E) as ->.
    destruct (Z_le_gt_dec (offset + 32 + i * 4) (len data)) as [L|G].
    + destruct (read_u32_inside data (offset + 28 + i * 4)) as [n [Hn _]]; [lia | lia |].
      replace (offset + 28 + i * 4 + 4) with (offset + 32 + i * 4) in Hn by lia.
      congruence.
    + repeat split; lia.
Qed.

Lemma read_offsets_return (fuel : nat) (data : bytes)
    (offset string_count i : Z) (offsets offsets' : list Z) :
  0 <= offset -> 0 <= i ->
  read_offsets fuel data offset string_count i offsets = Some (Return offsets') ->
  (i < string_count -> offset + 28 + 4 * string_count <= len data) /\
  (Forall (fun x => 0 <= x) offsets -> Forall (fun x => 0 <= x) offsets').
Proof.
  revert i offsets.
  induction fuel as [|fuel IH]; intros i offsets Ho Hi H; [discriminate|].
  simpl in H. destruct (i <? string_count) eqn:Ei.
  - apply Z.ltb_lt in Ei.
    destruct (unpack_I (slice data (offset + 28 + i * 4) (offset + 32 + i * 4))) as [n|e'] eqn:E;
      [|discriminate].
    apply unpack_I_inv in E. destruct E as [E En].
    rewrite slice_length in E by lia.
    apply IH in H; [|lia|lia]. destruct H as [H1 H2]. split.
    + intros _. destruct (Z_lt_ge_dec (i + 1) string_count); [auto | lia].
    + intros Hall. apply H2. apply Forall_app. split; [exact Hall|].
      constructor; [exact En | constructor].
  - injection H as ->. apply Z.ltb_ge in Ei. split; [lia | auto].
Qed.

(** The string loop never raises: its bounds test keeps the two-byte
    length prefix inside the buffer, and the slice it decodes is clipped. *)
Lemma read_strings_returns (data : bytes) (data_start : Z) (offsets : list Z)
    (strings : list str) :
  0 <= data_start -> Forall (fun x => 0 <= x) offsets ->
  exists strings', read_strings data data_start offsets strings = Return strings'.
Proof.
  intros Hd Hall. revert strings.
  induction Hall as [|x offsets Hx _ IH]; intros strings; simpl; [eauto|].
  destruct (data_start + x <? len data - 2) eqn:E; [|apply IH].
  apply Z.ltb_lt in E.
  destruct (unpack_H_length (slice data (data_start + x) (data_start + x + 2)))
    as [n Hn]; [rewrite slice_length by lia; lia|].
  rewrite Hn. simpl. destruct ((0 <? n) && (n <? 1000)); apply IH.
Qed.

(** The pool body, by whether the offset table fits. *)
Lemma read_string_pool_fits (fuel : nat) (data : bytes) (o : Z) :
  0 <= o -> (1 <= fuel)%nat -> len data - o - 28 < 4 * Z.of_nat fuel ->
  table_fits data o ->
  exists strings, read_string_pool fuel data o = Some (Return strings).
Proof.
  intros Ho Hf Hlen [n [Hn Hfit]]. unfold read_string_pool. rewrite Hn.
  pose proof (unpack_I_inv _ _ Hn) as [_ Hn0].
  destruct (read_offsets_terminates fuel data o n 0 []) as [r Hr]; try lia.
  rewrite Hr. destruct r as [offs|e].
  - apply read_offsets_return in Hr; [|lia|lia]. destruct Hr as [_ Hall].
    destruct (read_strings_returns data (o + 28 + n * 4) offs []) as [ss Hss];
      [lia | apply Hall; constructor |].
    rewrite Hss. eauto.
  - apply read_offsets_raise in Hr; [|lia|lia]. lia.
Qed.

Lemma read_string_pool_truncated (fuel : nat) (data : bytes) (o : Z) :
  0 <= o -> (1 <= fuel)%nat -> len data - o - 28 < 4 * Z.of_nat fuel ->
  table_truncated data o ->
  read_string_pool fuel data o = Some (Raise (StructError 4)).
Proof.
  intros Ho Hf Hlen Htr. unfold read_string_pool.
  destruct Htr as [L|[n [Hn [Hpos Hl]]]].
  - replace (o + 12) with (o + 8 + 4) by lia.
    rewrite read_u32_across by lia. reflexivity.
  - rewrite Hn.
    destruct (read_offsets_terminates fuel data o n 0 []) as [r Hr]; try lia.
    rewrite Hr. destruct r as [offs|e].
    + apply read_offsets_return in Hr; [|lia|lia]. destruct Hr as [Hr _]. lia.
    + apply read_offsets_raise in Hr; [|lia|lia]. destruct Hr as [-> _]. reflexivity.
Qed.

(** The whole scan, by what the loop meets. *)
Lemma scan_chunks_pool (data : bytes) (o : Z) :
  pool_at data o ->
  exists fuel : nat,
    (1 <= fuel)%nat /\ len data - o - 28 < 4 * Z.of_nat fuel /\
    scan_chunks (S (length data)) data 8 = read_string_pool fuel data o.
Proof.
  intros [Hr Hp].
  destruct (scan_chunks_reaches data o Hr (S (length data))) as [f [F1 [F2 F3]]];
    [lia | unfold len; lia |].
  pose proof (chunk_step_pool data o Hp) as L.
  pose proof (reaches_lower data o Hr) as L0.
  destruct f as [|f]; [lia|].
  exists f. rewrite F3. cbn [scan_chunks]. rewrite Hp.
  repeat split; lia.
Qed.

Lemma scan_chunks_no_pool (data : bytes) :
  (forall o, ~ pool_at data o) ->
  forall (fuel : nat) (o : Z),
    reaches data o -> (1 <= fuel)%nat -> len data - o <= Z.of_nat fuel ->
    scan_chunks fuel data o = Some (Return []).
Proof.
  intros Hno fuel.
  induction fuel as [|fuel IH]; intros o Hr H1 H2; [lia|].
  pose proof (reaches_lower data o Hr) as L0.
  simpl. destruct (chunk_step data o) as [[| |o']|e] eqn:E.
  - reflexivity.
  - exfalso. apply (Hno o). split; assumption.
  - pose proof (chunk_step_next data o o' E) as [L1 [L2 _]].
    apply IH; [eapply reaches_next; eassumption | lia | lia].
  - exfalso. apply (chunk_step_no_raise data o e); [lia | exact E].
Qed.

(** The visited positions form one increasing path. *)
Lemma reaches_linear (data : bytes) (b : Z) :
  reaches data b ->
  forall a a', reaches data a -> chunk_step data a = Return (Next a') ->
               a < b -> a' <= b.
Proof.
  pattern b. apply (well_founded_induction (Z.lt_wf 8)). clear b.
  intros b IH Hb a a' Ha Hs Hlt.
  pose proof (reaches_lower data a Ha) as La.
  inversion Hb as [E|c b' Hc Hcs E]; [lia|]. subst b'.
  pose proof (chunk_step_next data c b Hcs) as [Lc _].
  pose proof (reaches_lower data c Hc) as Lc0.
  destruct (Z_dec a c) as [[Lt|Gt]|Eq].
  - assert (a' <= c) by (apply (IH c) with (a := a); auto; lia). lia.
  - assert (b <= a) by (apply (IH a) with (a := c); auto; lia). lia.
  - subst c. rewrite Hs in Hcs. injection Hcs as ->. lia.
Qed.

(** The loop meets a pool or it does not. *)
Lemma pool_at_dec (data : bytes) :
  (exists o, pool_at data o) \/ (forall o, ~ pool_at data o).
Proof.
  assert (G : forall (fuel : nat) (o : Z),
             reaches data o -> len data - o <= Z.of_nat fuel ->
             (exists o', pool_at data o') \/
             (forall o', reaches data o' -> o <= o' -> chunk_step data o' <> Return Pool)).
  { induction fuel as [|fuel IH]; intros o Hr Hlen.
    - right. intros o' _ Ho' Hp. apply chunk_step_pool in Hp. lia.
    - pose proof (reaches_lower data o Hr) as L0.
      destruct (chunk_step data o) as [[| |o1]|e] eqn:E.
      + right. intros o' _ Ho' Hp. apply chunk_step_pool in Hp.
        destruct (Z_lt_ge_dec o (len data - 8)) as [L|Ge]; [|lia].
        destruct (chunk_step_inside data o) as [t [s [_ [_ [_ Hst]]]]]; [lia | lia |].
        rewrite Hst in E. destruct (t =? STRING_POOL); discriminate.
      + left. exists o. split; assumption.
      + pose proof (chunk_step_next data o o1 E) as [L1 [L2 _]].
        destruct (IH o1) as [Hex|Hnone];
          [eapply reaches_next; eassumption | lia | left; exact Hex |].
        right. intros o' Hr' Ho' Hp.
        destruct (Z.eq_dec o' o) as [->|Ne]; [congruence|].
        apply (Hnone o' Hr'); [|exact Hp].
        apply (reaches_linear data o' Hr' o o1 Hr E). lia.
      + exfalso. apply (chunk_step_no_raise data o e); [lia | exact E]. }
  destruct (G (S (length data)) 8 (reaches_start data)) as [H|H];
    [unfold len; lia | left; exact H |].
  right. intros o [Hr Hp]. apply (H o Hr (reaches_lower data o Hr) Hp).
Qed.

(** ** What the [str] tests decide *)

Lemma str_eqb_eq (a b : str) : str_eqb a b = true <-> a = b.
Proof.
  revert b. induction a as [|x a IH]; intros [|y b]; simpl; split; intros H;
    try reflexivity; try discriminate.
  - apply andb_true_iff in H. destruct H as [H1 H2].
    apply Z.eqb_eq in H1. apply IH in H2. congruence.
  - injection H as -> ->. rewrite Z.eqb_refl. simpl. apply IH. reflexivity.
Qed.

Lemma str_eqb_refl (a : str) : str_eqb a a = true.
Proof. apply str_eqb_eq. reflexivity. Qed.

Lemma str_eqb_neq (a b : str) : str_eqb a b = false <-> a <> b.
Proof.
  split.
  - intros H E. apply str_eqb_eq in E. congruence.
  - intros H. destruct (str_eqb a b) eqn:E; [|reflexivity].
    apply str_eqb_eq in E. contradiction.
Qed.

Lemma mem_In (s : str) (l : list str) : mem s l = true <-> In s l.
Proof.
  unfold mem. rewrite existsb_exists. split.
  - intros [x [Hx E]]. apply str_eqb_eq in E. subst. exact Hx.
  - intros H. exists s. split; [exact H | apply str_eqb_refl].
Qed.

Lemma mem_app (s : str) (l1 l2 : list str) :
  mem s (l1 ++ l2) = mem s l1 || mem s l2.
Proof. unfold mem. apply existsb_app. Qed.

(** [s.startswith(p)] holds exactly when [s] is [p] followed by something. *)
Lemma startswith_spec (s p : str) :
  startswith s p = true <-> exists t, s = p ++ t.
Proof.
  revert s. induction p as [|c p IH]; intros s.
  - split; [intros _; exists s; reflexivity | intros _; destruct s; reflexivity].
  - destruct s as [|d s]; simpl.
    + split; [discriminate | intros [t H]; discriminate].
    + rewrite andb_true_iff, Z.eqb_eq, IH. split.
      * intros [-> [t ->]]. exists t. reflexivity.
      * intros [t H]. injection H as -> ->. split; [reflexivity | exists t; reflexivity].
Qed.

(** [s.endswith(p)] holds exactly when [s] is something followed by [p]. *)
Lemma endswith_spec (s p : str) :
  endswith s p = true <-> exists t, s = t ++ p.
Proof.
  unfold endswith. rewrite startswith_spec. split.
  - intros [t H]. exists (rev t).
    rewrite <- (rev_involutive s), H, rev_app_distr, rev_involutive. reflexivity.
  - intros [t ->]. exists (rev t). apply rev_app_distr.
Qed.

(** [sub in s] holds exactly when [sub] occurs somewhere inside [s]. *)
Lemma contains_spec (s sub : str) :
  contains s sub = true <-> exists a b, s = a ++ sub ++ b.
Proof.
  induction s as [|c s IH]; cbn [contains].
  - rewrite orb_false_r, startswith_spec. split.
    + intros [t H]. exists [], t. exact H.
    + intros [a [b H]]. destruct a; [exists b; exact H | discriminate].
  - rewrite orb_true_iff, startswith_spec, IH. split.
    + intros [[t H]|[a [b H]]].
      * exists [], t. exact H.
      * exists (c :: a), b. rewrite H. reflexivity.
    + intros [a [b H]]. destruct a as [|d a].
      * left. exists b. exact H.
      * right. injection H as -> ->. exists a, b. reflexivity.
Qed.

(** For a one-character pattern, [c in s] is membership. *)
Lemma contains_char (s : str) (c : codepoint) :
  contains s [c] = true <-> In c s.
Proof.
  rewrite contains_spec. split.
  - intros [a [b ->]]. apply in_or_app. right. left. reflexivity.
  - intros H. apply in_split in H. destruct H as [a [b ->]]. exists a, b. reflexivity.
Qed.

Lemma contains_nonempty (s sub : str) :
  sub <> [] -> contains s sub = true -> s <> [].
Proof.
  intros Hs H ->. apply contains_spec in H. destruct H as [a [b H]].
  destruct a; destruct sub; try discriminate. congruence.
Qed.

Lemma getitem_head {A : Type} (c : A) (s : list A) : getitem (c :: s) 0 = Return c.
Proof.
  unfold getitem. change (0 <? 0) with false. cbv iota.
  rewrite len_cons. pose proof (len_nonneg s).
  change (0 <=? 0) with true.
  destruct (0 <? len s + 1) eqn:E; [reflexivity | apply Z.ltb_ge in E; lia].
Qed.

Lemma getitem_last {A : Type} (l : list A) (x : A) : getitem (l ++ [x]) (-1) = Return x.
Proof.
  unfold getitem. change (-1 <? 0) with true. cbv iota.
  rewrite len_app. change (len [x]) with 1. pose proof (len_nonneg l).
  replace (-1 + (len l + 1)) with (len l) by lia.
  destruct (0 <=? len l) eqn:E1; [|apply Z.leb_gt in E1; lia].
  destruct (len l <? len l + 1) eqn:E2; [|apply Z.ltb_ge in E2; lia].
  simpl. unfold len. rewrite Nat2Z.id.
  rewrite nth_error_app2 by lia. rewrite Nat.sub_diag. reflexivity.
Qed.

(** The first element a test accepts. *)
Lemma find_first {A : Type} (f : A -> bool) (l : list A) (x : A) :
  find f l = Some x <->
  exists l1 l2, l = l1 ++ x :: l2 /\ f x = true /\ (forall y, In y l1 -> f y = false).
Proof.
  induction l as [|a l IH]; simpl.
  - split; [discriminate | intros [l1 [l2 [H _]]]; destruct l1; discriminate].
  - destruct (f a) eqn:Ea.
    + split.
      * intros H. injection H as ->. exists [], l. repeat split; [exact Ea | intros y []].
      * intros [l1 [l2 [H [Hx Hl1]]]]. destruct l1 as [|b l1].
        -- injection H as -> _. reflexivity.
        -- injection H as -> _. rewrite (Hl1 b) in Ea; [discriminate | left; reflexivity].
    + rewrite IH. split.
      * intros [l1 [l2 [-> [Hx Hl1]]]]. exists (a :: l1), l2.
        repeat split; [exact Hx|]. intros y [<-|Hy]; auto.
      * intros [l1 [l2 [H [Hx Hl1]]]]. destruct l1 as [|b l1].
        -- injection H as -> _. congruence.
        -- injection H as -> ->. exists l1, l2. repeat split; [exact Hx|].
           intros y Hy. apply Hl1. right. exact Hy.
Qed.

Lemma find_app_hit {A : Type} (f : A -> bool) (l1 : list A) (x : A) (l2 : list A) :
  f x = true ->
  exists p, find f (l1 ++ x :: l2) = Some p /\ (In p l1 \/ p = x).
Proof.
  intros Hx. induction l1 as [|a l1 IH]; cbn [app find].
  - rewrite Hx. eauto.
  - destruct (f a); [exists a; split; [reflexivity | left; left; reflexivity]|].
    destruct IH as [p [Hp [Hin|Heq]]]; exists p; split; auto. left. right. exact Hin.
Qed.

Lemma find_none_iff {A : Type} (f : A -> bool) (l : list A) :
  find f l = None <-> forall y, In y l -> f y = false.
Proof.
  split; [apply find_none|].
  induction l as [|a l IH]; simpl; intros H; [reflexivity|].
  rewrite (H a) by (left; reflexivity). apply IH. intros y Hy. apply H. right. exact Hy.
Qed.

(** ** Permissions *)

Lemma negb_endswith (s p : str) :
  negb (endswith s p) = true <-> ~ (exists t, s = t ++ p).
Proof.
  rewrite negb_true_iff, <- endswith_spec.
  destruct (endswith s p); split; intros H; congruence.
Qed.

Lemma is_permission_spec (s : str) :
  is_permission s = true <-> PermissionString s.
Proof.
  unfold is_permission, PermissionString.
  rewrite <- startswith_spec, <- contains_spec, <- !negb_endswith.
  destruct (startswith s (lit "android.permission.")).
  - split; auto.
  - destruct (contains s (lit ".permission."));
      destruct (endswith s (lit "Activity")); destruct (endswith s (lit "Service"));
      destruct (endswith s (lit "Receiver")); destruct (endswith s (lit "Provider"));
      simpl; intuition discriminate.
Qed.

Lemma filter_twice {A : Type} (f g : A -> bool) (l : list A) :
  filter f (filter g l) = filter (fun x => g x && f x) l.
Proof.
  induction l as [|a l IH]; simpl; [reflexivity|].
  destruct (g a); simpl; [destruct (f a)|]; rewrite IH; reflexivity.
Qed.

Lemma first_occurrences_In (s : str) (l : list str) :
  In s (first_occurrences l) <-> In s l.
Proof.
  induction l as [|x l IH]; simpl; [tauto|].
  rewrite filter_In, IH, negb_true_iff, str_eqb_neq.
  destruct (list_eq_dec Z.eq_dec x s) as [E|E]; [tauto|].
  assert (s <> x) by congruence. tauto.
Qed.

Lemma first_occurrences_NoDup (l : list str) : NoDup (first_occurrences l).
Proof.
  induction l as [|x l IH]; simpl; constructor.
  - rewrite filter_In, negb_true_iff, str_eqb_neq. tauto.
  - apply NoDup_filter. exact IH.
Qed.

(** The accumulating loop of lines 85-96, started from any list. *)
Lemma collect_from (l acc : list str) :
  fold_left
    (fun permissions s =>
       if is_permission s && negb (mem s permissions)
       then permissions ++ [s] else permissions) l acc
  = acc ++ filter (fun s => negb (mem s acc))
             (first_occurrences (filter is_permission l)).
Proof.
  revert acc. induction l as [|s l IH]; intros acc; simpl.
  - rewrite app_nil_r. reflexivity.
  - rewrite IH. destruct (is_permission s) eqn:Ep; simpl; [|reflexivity].
    destruct (mem s acc) eqn:Em; simpl.
    + f_equal. rewrite filter_twice. apply filter_ext. intros y.
      destruct (str_eqb y s) eqn:Ey; simpl; [|reflexivity].
      apply str_eqb_eq in Ey. subst y. rewrite Em. reflexivity.
    + rewrite <- app_assoc. simpl. do 2 f_equal.
      rewrite filter_twice. apply filter_ext. intros y.
      rewrite mem_app. unfold mem at 2. simpl. rewrite orb_false_r.
      destruct (str_eqb y s); destruct (mem y acc); reflexivity.
Qed.

Lemma collect_permissions_eq (strings : list str) :
  collect_permissions strings = first_occurrences (filter is_permission strings).
Proof.
  unfold collect_permissions. rewrite collect_from. cbn [app].
  induction (first_occurrences _) as [|x l IH]; [reflexivity|].
  cbn [filter]. change (mem x []) with false. cbn [negb]. f_equal. exact IH.
Qed.

(** ** Package name and version name *)

Section PackageVersion.

Variable U : UnicodeData.

Lemma isdigit_not_punct (c : codepoint) :
  isdigit U c = true ->
  c <> DOT /\ c <> DASH /\ c <> UNDERSCORE /\ c <> CHAR_a /\ c <> CHAR_b /\ c <> CHAR_r.
Proof.
  unfold isdigit, is_ascii, ascii_isdigit, DOT, DASH, UNDERSCORE, CHAR_a, CHAR_b, CHAR_r.
  destruct (c <? 128) eqn:E; intros H.
  - apply andb_true_iff in H. destruct H as [H1 H2].
    apply Z.leb_le in H1. apply Z.leb_le in H2. lia.
  - apply Z.ltb_ge in E. lia.
Qed.

Lemma remove_char_head (c x : codepoint) (s : str) :
  c <> x -> remove_char (c :: s) x = c :: remove_char s x.
Proof.
  intros H. unfold remove_char. simpl.
  destruct (c =? x) eqn:E; [apply Z.eqb_eq in E; contradiction | reflexivity].
Qed.

Lemma remove_pair_head (c x y : codepoint) (s : str) :
  c <> x -> exists t, remove_pair (c :: s) x y = c :: t.
Proof.
  intros H. simpl. destruct s as [|d s]; [eauto|].
  destruct (c =? x) eqn:E; [apply Z.eqb_eq in E; contradiction|].
  simpl. eauto.
Qed.

(** The transformed form of a string with a leading digit starts with
    that digit: it is not empty. *)
Lemma version_digits_head (c : codepoint) (s : str) :
  isdigit U c = true -> exists t, version_digits (c :: s) = c :: t.
Proof.
  intros H. apply isdigit_not_punct in H.
  destruct H as [H1 [H2 [H3 [H4 [H5 H6]]]]].
  unfold version_digits.
  rewrite !remove_char_head by assumption.
  cbn [firstn]. rewrite !remove_char_head by assumption.
  apply remove_pair_head. assumption.
Qed.

Lemma package_ok_truthy (s : str) : package_ok U s = true -> truthy (Some s) = true.
Proof.
  unfold package_ok. destruct s; [discriminate | reflexivity].
Qed.

Lemma version_ok_truthy (s : str) : version_ok U s = true -> truthy (Some s) = true.
Proof.
  unfold version_ok. destruct s; [|reflexivity].
  rewrite andb_false_r. discriminate.
Qed.

(** One pass of the loop of lines 159-173. *)
Lemma package_version_step_eq (p v : option str) (s : str) :
  package_version_step U (p, v) s =
  Return (if negb (truthy p) && package_ok U s then Some s else p,
          if negb (truthy v) && version_ok U s then Some s else v).
Proof.
  unfold package_version_step, package_ok, version_ok.
  destruct s as [|c r].
  - change (contains [] (lit ".")) with false.
    rewrite !andb_false_r. cbn [andb bind first_char].
    destruct (truthy v), (len (@nil codepoint) <? 50); reflexivity.
  - rewrite getitem_head. cbn [first_char bind].
    destruct (isdigit U c) eqn:Ed;
      [destruct (version_digits_head c r Ed) as [t Ht];
       replace (str_isdigit U (version_digits (c :: r)))
         with (forallb (isdigit U) (version_digits (c :: r)))
         by (rewrite Ht; reflexivity)|];
      destruct (truthy p); cbn [negb andb bind];
      destruct (truthy v); cbn [negb andb bind]; try reflexivity;
      destruct (contains (c :: r) (lit ".")); cbn [negb andb bind];
      rewrite ?andb_false_r; cbn [negb andb bind]; try reflexivity;
      destruct (len (c :: r) <? 50); cbn [negb andb bind]; try reflexivity;
      destruct (5 <? len (c :: r)); cbn [negb andb bind]; try reflexivity;
      destruct (len (c :: r) <? 200); cbn [negb andb bind]; try reflexivity;
      destruct (2 <=? count (c :: r) DOT); cbn [negb andb bind]; try reflexivity;
      destruct (existsb (isalpha U) (c :: r)); cbn [negb andb bind]; try reflexivity;
      destruct (forallb (fun c0 => isalnum U c0 || (c0 =? DOT) || (c0 =? UNDERSCORE)) (c :: r));
      cbn [negb andb bind]; try reflexivity;
      destruct (startswith (c :: r) (lit "android.permission."));
      cbn [negb andb bind]; try reflexivity;
      destruct (forallb (isdigit U) (version_digits (c :: r)));
      cbn [negb andb bind]; reflexivity.
Qed.

(** The loop of lines 159-173 from any state. *)
Lemma package_version_loop_from (l : list str) (p v : option str) :
  foldM (package_version_step U) l (p, v) =
  Return (first_match (package_ok U) l p, first_match (version_ok U) l v).
Proof.
  revert p v. induction l as [|s l IH]; intros p v.
  - unfold first_match. simpl. destruct (truthy p), (truthy v); reflexivity.
  - cbn [foldM]. rewrite package_version_step_eq. cbn [bind]. rewrite IH.
    unfold first_match. cbn [find]. f_equal. f_equal.
    + destruct (truthy p) eqn:Ep; cbn [negb andb]; [rewrite Ep; reflexivity|].
      destruct (package_ok U s) eqn:Es; [|rewrite Ep; reflexivity].
      rewrite (package_ok_truthy s Es). reflexivity.
    + destruct (truthy v) eqn:Ev; cbn [negb andb]; [rewrite Ev; reflexivity|].
      destruct (version_ok U s) eqn:Es; [|rewrite Ev; reflexivity].
      rewrite (version_ok_truthy s Es). reflexivity.
Qed.

Lemma package_version_loop_eq (strings : list str) :
  package_version_loop U strings =
  Return (find (package_ok U) strings, find (version_ok U) strings).
Proof.
  unfold package_version_loop. rewrite package_version_loop_from.
  unfold first_match. simpl.
  destruct (find (package_ok U) strings), (find (version_ok U) strings); reflexivity.
Qed.

End PackageVersion.

(** ** The application label *)

Lemma getitem_after {A : Type} (l1 : list A) (x : A) (l2 : list A) (a : nat) (y : A) :
  nth_error l2 a = Some y ->
  getitem (l1 ++ x :: l2) (len l1 + (1 + Z.of_nat a)) = Return y.
Proof.
  intros H. assert (Ha : (a < length l2)%nat) by (apply nth_error_Some; congruence).
  unfold getitem. pose proof (len_nonneg l1) as L1.
  destruct (len l1 + (1 + Z.of_nat a) <? 0) eqn:E1; [apply Z.ltb_lt in E1; lia|].
  rewrite len_app, len_cons.
  destruct (0 <=? len l1 + (1 + Z.of_nat a)) eqn:E2; [|apply Z.leb_gt in E2; lia].
  destruct (len l1 + (1 + Z.of_nat a) <? len l1 + (len l2 + 1)) eqn:E3;
    [|apply Z.ltb_ge in E3; unfold len in E3; lia].
  cbn [andb].
  replace (Z.to_nat (len l1 + (1 + Z.of_nat a))) with (length l1 + S a)%nat
    by (unfold len; lia).
  rewrite nth_error_app2 by lia.
  replace (length l1 + S a - length l1)%nat with (S a) by lia.
  cbn [nth_error]. rewrite H. reflexivity.
Qed.

Lemma skipn_nth_error {A : Type} (l : list A) (a : nat) (y : A) :
  nth_error l a = Some y -> skipn a l = y :: skipn (S a) l.
Proof.
  revert l. induction a as [|a IH]; intros [|x l] H; try discriminate.
  - injection H as ->. reflexivity.
  - apply IH in H. exact H.
Qed.

Lemma find_application_after (strings : list str) (i : Z) :
  (find_application strings i = -1 /\ after_application strings = []
   /\ ~ In (lit "application") strings) \/
  (exists l1 l2, strings = l1 ++ lit "application" :: l2
                 /\ ~ In (lit "application") l1
                 /\ find_application strings i = i + len l1
                 /\ after_application strings = l2).
Proof.
  revert i. induction strings as [|s l IH]; intros i.
  - left. repeat split. intros [].
  - cbn [find_application after_application].
    destruct (str_eqb s (lit "application")) eqn:E.
    + apply str_eqb_eq in E. subst s. right. exists [], l.
      repeat split; [intros [] | change (len (@nil str)) with 0; lia].
    + apply str_eqb_neq in E.
      destruct (IH (i + 1)) as [[H1 [H2 H3]]|[l1 [l2 [H1 [H2 [H3 H4]]]]]].
      * left. repeat split; [exact H1 | exact H2 |]. intros [H|H]; [congruence | auto].
      * right. exists (s :: l1), l2. repeat split.
        -- rewrite H1. reflexivity.
        -- intros [H|H]; [congruence | auto].
        -- rewrite H3, len_cons. lia.
        -- exact H4.
Qed.

Section Label.

Variable U : UnicodeData.

Lemma proximity_cond_nonempty (s : str) :
  proximity_cond U s = true -> exists c r, s = c :: r.
Proof.
  destruct s as [|c r]; [discriminate | eauto].
Qed.

Lemma proximity_ok_truthy (s : str) : proximity_ok U s = true -> truthy (Some s) = true.
Proof.
  unfold proximity_ok. destruct s; [rewrite andb_false_r; discriminate | reflexivity].
Qed.

Lemma global_ok_truthy (s : str) : global_ok U s = true -> truthy (Some s) = true.
Proof.
  unfold global_ok. destruct s; [discriminate | reflexivity].
Qed.

Lemma fallback_ok_truthy (s : str) : fallback_ok U s = true -> truthy (Some s) = true.
Proof.
  unfold fallback_ok. destruct s; [discriminate | reflexivity].
Qed.

(** The loop of lines 120-132 over the positions after ['application']. *)
Lemma proximity_loop_window (l1 l2 : list str) (n a : nat) :
  (a + n <= length l2)%nat ->
  proximity_loop U (l1 ++ lit "application" :: l2) (len l1)
    (map (fun k => 1 + Z.of_nat k) (seq a n))
  = Return (find (proximity_ok U) (firstn n (skipn a l2))).
Proof.
  revert a. induction n as [|n IH]; intros a Ha; [reflexivity|].
  cbn [seq map proximity_loop].
  destruct (nth_error l2 a) as [s|] eqn:E;
    [|apply nth_error_None in E; lia].
  rewrite (getitem_after l1 _ l2 a s E). cbn [bind].
  rewrite (skipn_nth_error l2 a s E). cbn [firstn find].
  unfold proximity_ok at 1.
  destruct (proximity_cond U s) eqn:Ec; cbn [andb].
  - destruct (proximity_cond_nonempty s Ec) as [c [r ->]].
    rewrite getitem_head. cbn [bind first_char].
    destruct (isupper U c); [reflexivity|]. apply IH. lia.
  - apply IH. lia.
Qed.

(** Lines 111-132: the proximity pass returns the first candidate of its
    window. *)
Lemma label_proximity_eq (strings : list str) :
  label_proximity U strings =
  Return (find (proximity_ok U) (proximity_window strings)).
Proof.
  unfold label_proximity, proximity_window.
  destruct (find_application_after strings 0)
    as [[H1 [H2 _]]|[l1 [l2 [H1 [_ [H3 H4]]]]]].
  - rewrite H1, H2. reflexivity.
  - rewrite H3, H4. pose proof (len_nonneg l1) as L1.
    destruct (0 <=? 0 + len l1) eqn:E; [|apply Z.leb_gt in E; lia].
    replace (0 + len l1) with (len l1) by lia.
    unfold range. rewrite H1 at 1.
    rewrite (proximity_loop_window l1 l2 _ 0).
    + cbn [skipn]. f_equal. f_equal.
      rewrite H1, len_app, len_cons.
      destruct (Nat.le_gt_cases (length l2) 20) as [Le|Gt].
      * replace (Z.to_nat (Z.min 21 (len l1 + (len l2 + 1) - len l1) - 1))
          with (length l2) by (unfold len; lia).
        rewrite firstn_all. symmetry. apply firstn_all2. exact Le.
      * replace (Z.to_nat (Z.min 21 (len l1 + (len l2 + 1) - len l1) - 1))
          with 20%nat by (unfold len; lia).
        reflexivity.
    + rewrite H1, len_app, len_cons. unfold len. lia.
Qed.

Lemma global_loop_eq (l : list str) (a : option str) :
  global_loop U l a = Return (or_else (find (global_ok U) l) a).
Proof.
  induction l as [|s l IH]; [reflexivity|].
  cbn [global_loop find]. unfold global_ok at 1.
  destruct (global_cond U s) eqn:Ec; cbn [andb]; [|exact IH].
  destruct s as [|c r]; [discriminate|].
  rewrite getitem_head. cbn [bind first_char].
  destruct (isupper U c && contains (c :: r) (lit " ")); [reflexivity | exact IH].
Qed.

Lemma fallback_loop_eq (l : list str) (a : option str) :
  fallback_loop U l a = Return (or_else (find (fallback_ok U) l) a).
Proof.
  induction l as [|s l IH]; [reflexivity|].
  cbn [fallback_loop find]. unfold fallback_ok at 1.
  destruct ((3 <=? len s) && (len s <=? 30)) eqn:Ec; cbn [andb]; [|exact IH].
  destruct s as [|c r]; [discriminate|].
  rewrite getitem_head. cbn [bind first_char].
  rewrite <- andb_assoc.
  destruct (isupper U c && (str_isalpha U (c :: r) && negb (excluded U (c :: r))));
    [reflexivity | exact IH].
Qed.

(** The three passes of lines 104-157. *)
Lemma find_label_eq (strings : list str) :
  find_label U strings =
  Return (or_else (find (proximity_ok U) (proximity_window strings))
            (or_else (find (global_ok U) strings)
               (find (fallback_ok U) strings))).
Proof.
  unfold find_label. rewrite label_proximity_eq. cbn [bind].
  destruct (find (proximity_ok U) (proximity_window strings)) as [s|] eqn:E1.
  - apply find_some in E1. destruct E1 as [_ E1].
    apply proximity_ok_truthy in E1.
    destruct s as [|c r]; [discriminate | reflexivity].
  - cbn [truthy negb]. rewrite global_loop_eq. cbn [bind].
    destruct (find (global_ok U) strings) as [s|] eqn:E2.
    + apply find_some in E2. destruct E2 as [_ E2].
      apply global_ok_truthy in E2.
      destruct s as [|c r]; [discriminate | reflexivity].
    + cbn [or_else truthy negb]. rewrite fallback_loop_eq.
      destruct (find (fallback_ok U) strings); reflexivity.
Qed.

End Label.

(** ** The synthesized label and the whole classifier *)

Lemma split_last (p : str) (sep : codepoint) :
  exists parts seg,
    split p sep = parts ++ [seg] /\ ~ In sep seg /\
    ((parts = [] /\ p = seg) \/ (parts <> [] /\ exists pre, p = pre ++ sep :: seg)).
Proof.
  induction p as [|c p IH].
  - exists [], []. repeat split; [intros [] | left; auto].
  - destruct IH as [parts [seg [Hs [Hn Hp]]]]. cbn [split].
    destruct (c =? sep) eqn:E.
    + apply Z.eqb_eq in E. subst c. exists ([] :: parts), seg.
      rewrite Hs. repeat split; [exact Hn|]. right. split; [discriminate|].
      destruct Hp as [[_ ->]|[_ [pre ->]]]; [exists [] | exists (sep :: pre)]; reflexivity.
    + apply Z.eqb_neq in E. rewrite Hs.
      destruct parts as [|q parts]; cbn [app].
      * exists [], (c :: seg). repeat split.
        -- intros [H|H]; [congruence | contradiction].
        -- left. destruct Hp as [[_ ->]|[Hne _]]; [auto | congruence].
      * exists ((c :: q) :: parts), seg. repeat split; [exact Hn|]. right.
        split; [discriminate|].
        destruct Hp as [[Hnil _]|[_ [pre ->]]]; [discriminate|].
        exists (c :: pre). reflexivity.
Qed.

Lemma last_snoc {A : Type} (l : list A) (x d : A) : last (l ++ [x]) d = x.
Proof.
  induction l as [|a l IH]; [reflexivity|].
  cbn [app]. destruct (l ++ [x]) eqn:E; [destruct l; discriminate|].
  cbn [last]. exact IH.
Qed.

(** The segment holds no dot and ends the string, after a dot when the
    string has one. *)
Lemma last_segment_spec (p : str) :
  ~ In DOT (last_segment p) /\
  (p = last_segment p \/ exists pre, p = pre ++ DOT :: last_segment p).
Proof.
  unfold last_segment.
  destruct (split_last p DOT) as [parts [seg [Hs [Hn Hp]]]].
  rewrite Hs, last_snoc. split; [exact Hn|].
  destruct Hp as [[_ ->]|[_ H]]; auto.
Qed.

Lemma getitem_split_last (p : str) :
  (0 <? len (split p DOT)) = true /\
  getitem (split p DOT) (-1) = Return (last_segment p).
Proof.
  unfold last_segment.
  destruct (split_last p DOT) as [parts [seg [Hs _]]].
  rewrite Hs, last_snoc, getitem_last, len_app.
  pose proof (len_nonneg parts). change (len [seg]) with 1.
  split; [apply Z.ltb_lt; lia | reflexivity].
Qed.

Lemma synthesize_label_eq (U : UnicodeData) (app_label package_name : option str) :
  synthesize_label U app_label package_name =
  Return (final_label U app_label package_name).
Proof.
  unfold synthesize_label, final_label.
  destruct (negb (truthy app_label) && truthy package_name); [|reflexivity].
  destruct package_name as [p|]; [|reflexivity].
  destruct (getitem_split_last p) as [H1 H2]. rewrite H1, H2. reflexivity.
Qed.

(** The classifier: the version-code loop is its only source of
    exceptions. *)
Lemma classify_eq (U : UnicodeData) (strings : list str) :
  classify U strings =
  (version_code <- version_code_loop U strings ;;
   Return (Manifest
     {| package := find (package_ok U) strings;
        versionName := find (version_ok U) strings;
        versionCode := version_code;
        appLabel :=
          final_label U
            (or_else (find (proximity_ok U) (proximity_window strings))
               (or_else (find (global_ok U) strings)
                  (find (fallback_ok U) strings)))
            (find (package_ok U) strings);
        permissions := collect_permissions strings |})).
Proof.
  unfold classify. destruct (tag_indices strings 0 (-1) (-1)) as [i1 i2].
  rewrite find_label_eq, package_version_loop_eq. cbn [bind].
  destruct (version_code_loop U strings) as [vc|e]; [|reflexivity].
  cbn [bind]. rewrite synthesize_label_eq. reflexivity.
Qed.

Lemma int_raise (U : UnicodeData) (s : str) (e : exn) :
  int U s = Raise e -> e = ValueError s.
Proof.
  unfold int. destruct (digits_value U s 0); [discriminate | congruence].
Qed.

Lemma version_code_step_raise (U : UnicodeData) (vc : option str) (s : str) (e : exn) :
  version_code_step U vc s = Raise e -> exists literal, e = ValueError literal.
Proof.
  unfold version_code_step.
  destruct (str_isdigit U s && (5 <=? len s) && (len s <=? 10)); [|discriminate].
  destruct vc as [[|c v]|]; try discriminate.
  destruct (int U s) as [n|e1] eqn:E1; cbn [bind].
  - destruct (int U (c :: v)) as [m|e2] eqn:E2; cbn [bind].
    + destruct (m <? n); discriminate.
    + intros H. injection H as <-. apply int_raise in E2. eauto.
  - intros H. injection H as <-. apply int_raise in E1. eauto.
Qed.

(** ** [parse_binary_xml] as a whole *)

(** A slice holds elements of the buffer only. *)
Lemma slice_incl {A : Type} (data : list A) (lo hi : Z) :
  incl (slice data lo hi) data.
Proof.
  unfold slice. intros x H.
  rewrite <- (firstn_skipn (Z.to_nat lo) data). apply in_or_app. right.
  rewrite <- (firstn_skipn (Z.to_nat (hi - lo)) (skipn (Z.to_nat lo) data)).
  apply in_or_app. left. exact H.
Qed.

Lemma slice_len_le {A : Type} (data : list A) (lo hi : Z) :
  len (slice data lo hi) <= len data.
Proof.
  unfold slice, len. rewrite length_firstn, length_skipn. lia.
Qed.

(** Past the length test, the header reads succeed and the body is the
    scan followed by the classifier. *)
Lemma parse_body_after_header (U : UnicodeData) (fuel : nat) (data : bytes) :
  8 <= len data ->
  parse_body U fuel data =
  match scan_chunks fuel data 8 with
  | None => None
  | Some (Raise e) => Some (Raise e)
  | Some (Return strings) => Some (classify U strings)
  end.
Proof.
  intros H. unfold parse_body.
  destruct (len data <? 8) eqn:E; [apply Z.ltb_lt in E; lia|].
  destruct (read_u32_inside data 0) as [m [Hm _]]; [lia | lia |].
  destruct (read_u32_inside data 4) as [f [Hf _]]; [lia | lia |].
  change (0 + 4) with 4 in Hm. change (4 + 4) with 8 in Hf.
  rewrite Hm, Hf. reflexivity.
Qed.

Lemma parse_binary_xml_after_header (U : UnicodeData) (data : bytes)
    (r : result (list str)) :
  8 <= len data ->
  scan_chunks (S (length data)) data 8 = Some r ->
  parse_binary_xml U data =
  Some (handled (strings <- r ;; classify U strings)).
Proof.
  intros H Hr. unfold parse_binary_xml, parse_with_fuel.
  rewrite parse_body_after_header by exact H. rewrite Hr.
  destruct r as [strings|e]; [|reflexivity].
  cbn [bind]. destruct (classify U strings); reflexivity.
Qed.

Lemma parse_body_total (U : UnicodeData) (data : bytes) :
  exists r, parse_body U (S (length data)) data = Some r.
Proof.
  destruct (Z_lt_ge_dec (len data) 8) as [L|G].
  - unfold parse_body. apply Z.ltb_lt in L. rewrite L. eauto.
  - rewrite parse_body_after_header by lia.
    destruct (scan_chunks_terminates (S (length data)) data 8) as [r Hr];
      [lia | lia | unfold len; lia |].
    rewrite Hr. destruct r; eauto.
Qed.

(** ** The candidate tests, condition by condition *)

Lemma negb_iff (b : bool) (P : Prop) :
  (b = true <-> P) -> (negb b = true <-> ~ P).
Proof.
  intros H. destruct b; simpl; split; intros H'.
  - discriminate.
  - exfalso. apply H'. apply H. reflexivity.
  - intros HP. apply H in HP. discriminate.
  - reflexivity.
Qed.

Lemma first_char_spec (p : codepoint -> bool) (s : str) :
  first_char p s = true <-> exists c r, s = c :: r /\ p c = true.
Proof.
  destruct s as [|c r]; simpl; split.
  - discriminate.
  - intros [c [r [H _]]]. discriminate.
  - intros H. eauto.
  - intros [c' [r' [H Hp]]]. injection H as -> ->. exact Hp.
Qed.

Lemma package_ok_spec (U : UnicodeData) (s : str) :
  package_ok U s = true <-> PackageCandidate U s.
Proof.
  unfold package_ok, PackageCandidate. change (lit ".") with [DOT].
  rewrite !andb_true_iff, contains_char, !Z.ltb_lt, Z.leb_le, existsb_exists,
    forallb_forall, first_char_spec, (negb_iff _ _ (startswith_spec _ _)).
  assert (Hall : (forall x, In x s ->
                    isalnum U x || (x =? DOT) || (x =? UNDERSCORE) = true) <->
                 (forall c, In c s -> isalnum U c = true \/ c = DOT \/ c = UNDERSCORE)).
  { split; intros H c Hc; specialize (H c Hc).
    - rewrite !orb_true_iff, !Z.eqb_eq in H. tauto.
    - rewrite !orb_true_iff, !Z.eqb_eq. tauto. }
  assert (Hfst : (exists c r, s = c :: r /\ negb (isdigit U c) = true) <->
                 (exists c r, s = c :: r /\ isdigit U c = false)).
  { split; intros [c [r [H1 H2]]]; exists c, r; split; auto;
      destruct (isdigit U c); simpl in *; congruence. }
  rewrite Hall, Hfst. tauto.
Qed.

Lemma version_ok_spec (U : UnicodeData) (s : str) :
  version_ok U s = true <-> VersionCandidate U s.
Proof.
  unfold version_ok, VersionCandidate. change (lit ".") with [DOT].
  rewrite !andb_true_iff, contains_char, Z.ltb_lt, forallb_forall, first_char_spec.
  tauto.
Qed.

Lemma classify_fields (U : UnicodeData) (strings : list str) (m : ManifestMetadata) :
  classify U strings = Return (Manifest m) ->
  package m = find (package_ok U) strings /\
  versionName m = find (version_ok U) strings /\
  version_code_loop U strings = Return (versionCode m) /\
  appLabel m =
    final_label U
      (or_else (find (proximity_ok U) (proximity_window strings))
         (or_else (find (global_ok U) strings) (find (fallback_ok U) strings)))
      (find (package_ok U) strings) /\
  permissions m = collect_permissions strings.
Proof.
  rewrite classify_eq.
  destruct (version_code_loop U strings) as [vc|e]; cbn [bind]; [|discriminate].
  intros H. injection H as <-. repeat split.
Qed.

Lemma proximity_ok_spec (U : UnicodeData) (s : str) :
  proximity_ok U s = true <-> ProximityCandidate U s.
Proof.
  unfold proximity_ok, proximity_cond, ProximityCandidate, excluded.
  change (lit "/") with [SLASH].
  rewrite !andb_true_iff, !Z.leb_le, first_char_spec,
    (negb_iff _ _ (contains_char _ _)),
    !(negb_iff _ _ (startswith_spec _ _)),
    (negb_iff _ _ (endswith_spec _ _)),
    (negb_iff _ _ (mem_In _ _)).
  assert (Hdig : negb (existsb (isdigit U) s) = true <->
                 (forall c, In c s -> isdigit U c = false)).
  { rewrite negb_true_iff. split.
    - intros H c Hc. destruct (isdigit U c) eqn:E; [|reflexivity].
      rewrite <- H. symmetry. apply existsb_exists. eauto.
    - intros H. destruct (existsb (isdigit U) s) eqn:E; [|reflexivity].
      apply existsb_exists in E. destruct E as [c [Hc E]].
      rewrite (H c Hc) in E. discriminate. }
  rewrite Hdig. tauto.
Qed.

(** ** The version-code loop on strings [int()] accepts *)

Lemma int_of_value (U : UnicodeData) (s : str) (n : Z) :
  int_value U s = Some n -> int U s = Return n.
Proof. unfold int, int_value. intros ->. reflexivity. Qed.

Lemma code_ok_nonempty (U : UnicodeData) (s : str) :
  code_ok U s = true -> exists c r, s = c :: r.
Proof. destruct s as [|c r]; [discriminate | eauto]. Qed.

(** The loop of lines 176-179 from any state that holds nothing or a
    candidate with a value. *)
Lemma version_code_from (U : UnicodeData) (l : list str) :
  (forall s, In s l -> code_ok U s = true -> exists n, int_value U s = Some n) ->
  forall vc : option str,
    (forall v, vc = Some v -> code_ok U v = true /\ exists m, int_value U v = Some m) ->
    exists vc',
      foldM (version_code_step U) l vc = Return vc' /\
      (vc' = None <-> vc = None /\ forall s, In s l -> code_ok U s = false) /\
      (forall v, vc' = Some v ->
         (vc = Some v \/ In v l) /\ code_ok U v = true /\
         exists m, int_value U v = Some m /\
           (forall s n, In s l -> code_ok U s = true -> int_value U s = Some n -> n <= m) /\
           (forall v0 m0, vc = Some v0 -> int_value U v0 = Some m0 -> m0 <= m)).
Proof.
  induction l as [|s l IH]; intros Hval vc Hvc.
  - exists vc. cbn [foldM]. split; [reflexivity|]. split.
    + split; [intros ->; split; [reflexivity | intros s []] | tauto].
    + intros v ->. destruct (Hvc v eq_refl) as [H1 [m Hm]].
      split; [left; reflexivity|]. split; [exact H1|].
      exists m. split; [exact Hm|]. split; [intros s n []|].
      intros v0 m0 H0 Hm0. injection H0 as <-. rewrite Hm in Hm0.
      injection Hm0 as <-. lia.
  - assert (Hval' : forall s0, In s0 l -> code_ok U s0 = true ->
                               exists n, int_value U s0 = Some n).
    { intros s0 H0. apply Hval. right. exact H0. }
    cbn [foldM]. unfold version_code_step at 1. fold (code_ok U s).
    destruct (code_ok U s) eqn:Es.
    + destruct (Hval s (or_introl eq_refl) Es) as [n Hn].
      destruct vc as [v|].
      * destruct (Hvc v eq_refl) as [Hv [m Hm]].
        destruct (code_ok_nonempty U v Hv) as [c [r ->]].
        rewrite (int_of_value U s n Hn), (int_of_value U (c :: r) m Hm).
        cbn [bind].
        destruct (m <? n) eqn:Emn; cbn [bind].
        -- apply Z.ltb_lt in Emn.
           destruct (IH Hval' (Some s)) as [vc' [H1 [H2 H3]]].
           { intros v0 H0. injection H0 as <-. split; [exact Es | eauto]. }
           exists vc'. split; [exact H1|]. split.
           ++ split; [intros E; apply H2 in E; destruct E; discriminate
                     | intros [E _]; discriminate].
           ++ intros v Hv'. destruct (H3 v Hv') as [K1 [K2 [k [K3 [K4 K5]]]]].
              split; [right; destruct K1 as [K1|K1];
                        [injection K1 as <-; left; reflexivity | right; exact K1]|].
              split; [exact K2|]. exists k. split; [exact K3|].
              pose proof (K5 s n eq_refl Hn) as Hsn.
              split.
              ** intros s0 n0 [<-|H0] Hc0 Hn0; [|eapply K4; eassumption].
                 rewrite Hn in Hn0. injection Hn0 as <-. exact Hsn.
              ** intros v0 m0 H0 Hm0. injection H0 as <-.
                 rewrite Hm in Hm0. injection Hm0 as <-. lia.
        -- apply Z.ltb_ge in Emn.
           destruct (IH Hval' (Some (c :: r))) as [vc' [H1 [H2 H3]]].
           { intros v0 H0. injection H0 as <-. split; [exact Hv | eauto]. }
           exists vc'. split; [exact H1|]. split.
           ++ split; [intros E; apply H2 in E; destruct E; discriminate
                     | intros [E _]; discriminate].
           ++ intros v Hv'. destruct (H3 v Hv') as [K1 [K2 [k [K3 [K4 K5]]]]].
              split; [destruct K1 as [K1|K1]; [left; exact K1 | right; right; exact K1]|].
              split; [exact K2|]. exists k. split; [exact K3|].
              pose proof (K5 (c :: r) m eq_refl Hm) as Hvm.
              split.
              ** intros s0 n0 [<-|H0] Hc0 Hn0; [|eapply K4; eassumption].
                 rewrite Hn in Hn0. injection Hn0 as <-. lia.
              ** intros v0 m0 H0 Hm0. injection H0 as <-.
                 rewrite Hm in Hm0. injection Hm0 as <-. exact Hvm.
      * cbn [bind].
        destruct (IH Hval' (Some s)) as [vc' [H1 [H2 H3]]].
        { intros v0 H0. injection H0 as <-. split; [exact Es | eauto]. }
        exists vc'. split; [exact H1|]. split.
        -- split; [intros E; apply H2 in E; destruct E; discriminate|].
           intros [_ E]. rewrite (E s (or_introl eq_refl)) in Es. discriminate.
        -- intros v Hv'. destruct (H3 v Hv') as [K1 [K2 [k [K3 [K4 K5]]]]].
           split; [right; destruct K1 as [K1|K1];
                     [injection K1 as <-; left; reflexivity | right; exact K1]|].
           split; [exact K2|]. exists k. split; [exact K3|].
           pose proof (K5 s n eq_refl Hn) as Hsn.
           split; [|intros v0 m0 H0; discriminate].
           intros s0 n0 [<-|H0] Hc0 Hn0; [|eapply K4; eassumption].
           rewrite Hn in Hn0. injection Hn0 as <-. exact Hsn.
    + cbn [bind]. destruct (IH Hval' vc Hvc) as [vc' [H1 [H2 H3]]].
      exists vc'. split; [exact H1|]. split.
      * rewrite H2. split; intros [E1 E2]; (split; [exact E1|]).
        -- intros s0 [<-|H0]; auto.
        -- intros s0 H0. apply E2. right. exact H0.
      * intros v Hv'. destruct (H3 v Hv') as [K1 [K2 [k [K3 [K4 K5]]]]].
        split; [destruct K1 as [K1|K1]; [left; exact K1 | right; right; exact K1]|].
        split; [exact K2|]. exists k. split; [exact K3|]. split; [|exact K5].
        intros s0 n0 [<-|H0] Hc0 Hn0; [congruence | eapply K4; eassumption].
Qed.

(* ===================================================================== *)
(** * The claims *)

(** *** C1 *)

(** C1, as stated, fails: a buffer of 17 bytes (not shorter than 8) whose
    pool chunk is cut before its [string_count] field makes
    [struct.unpack] raise, and the handler returns an error dictionary
    that is not the too-small one. *)
Lemma truncated_pool_is_error :
  (8 <=? len truncated_pool) = true /\
  parse_binary_xml ucd_sample truncated_pool
  = Some (ErrorDict (StrOf (StructError 4))).
Proof. split; vm_compute; reflexivity. Qed.

(** C1, amended: for a buffer of at least 8 bytes the scan fails, and
    [parse_binary_xml] returns the error dictionary of [struct.error],
    exactly when the [string_count] field or the offset table of the string
    pool the loop meets runs past the end of the buffer.  Everything else
    (unknown chunk types, zero or garbage chunk sizes, no pool at all,
    string offsets out of range, zero or oversized lengths, undecodable
    UTF-16) is absorbed: the scan returns a pool, and whenever the
    classifier returns a record for it, so does [parse_binary_xml]. *)
Theorem scan_fails_only_on_truncated_table (U : UnicodeData) (data : bytes) :
  8 <= len data ->
  (forall o, pool_at data o -> table_truncated data o ->
     scan_chunks (S (length data)) data 8 = Some (Raise (StructError 4)) /\
     parse_binary_xml U data = Some (ErrorDict (StrOf (StructError 4)))) /\
  (forall o, pool_at data o -> table_fits data o ->
     exists strings,
       scan_chunks (S (length data)) data 8 = Some (Return strings) /\
       forall m, classify U strings = Return (Manifest m) ->
                 parse_binary_xml U data = Some (Manifest m)) /\
  ((forall o, ~ pool_at data o) ->
     scan_chunks (S (length data)) data 8 = Some (Return []) /\
     parse_binary_xml U data = Some (Manifest empty_metadata)) /\
  ((exists o, pool_at data o /\ (table_fits data o \/ table_truncated data o)) \/
   (forall o, ~ pool_at data o)).
Proof.
  intros Hlen. repeat split.
  - destruct (scan_chunks_pool data o H) as [f [F1 [F2 ->]]].
    apply read_string_pool_truncated; try assumption.
    apply pool_at_lower in H. lia.
  - destruct (scan_chunks_pool data o H) as [f [F1 [F2 F3]]].
    rewrite (parse_binary_xml_after_header U data (Raise (StructError 4)) Hlen);
      [reflexivity|].
    rewrite F3. apply read_string_pool_truncated; try assumption.
    apply pool_at_lower in H. lia.
  - intros o Hp Hfit.
    destruct (scan_chunks_pool data o Hp) as [f [F1 [F2 F3]]].
    destruct (read_string_pool_fits f data o) as [strings Hs]; try assumption.
    { apply pool_at_lower in Hp. lia. }
    exists strings. rewrite F3. split; [exact Hs|].
    intros m Hm.
    rewrite (parse_binary_xml_after_header U data (Return strings) Hlen)
      by (rewrite F3; exact Hs).
    cbn [bind]. rewrite Hm. reflexivity.
  - apply scan_chunks_no_pool; [assumption | constructor | lia | unfold len; lia].
  - rewrite (parse_binary_xml_after_header U data (Return []) Hlen); [reflexivity|].
    apply scan_chunks_no_pool; [assumption | constructor | lia | unfold len; lia].
  - destruct (pool_at_dec data) as [[o Ho]|Hno]; [left | right; exact Hno].
    exists o. split; [exact Ho|].
    apply table_fits_or_truncated. apply pool_at_lower in Ho. lia.
Qed.

Lemma scan_fails_only_on_truncated_table_witness :
  8 <= len truncated_pool /\
  pool_at truncated_pool 8 /\
  table_truncated truncated_pool 8 /\
  parse_binary_xml ucd_sample truncated_pool
  = Some (ErrorDict (StrOf (StructError 4))).
Proof.
  assert (H : 8 <= len truncated_pool) by (vm_compute; discriminate).
  assert (Hp : pool_at truncated_pool 8)
    by (split; [constructor | vm_compute; reflexivity]).
  assert (Ht : table_truncated truncated_pool 8)
    by (left; vm_compute; reflexivity).
  split; [exact H|]. split; [exact Hp|]. split; [exact Ht|].
  exact (proj2 (proj1 (scan_fails_only_on_truncated_table ucd_sample truncated_pool H)
                  8 Hp Ht)).
Defined.

(** *** C8 *)

(** C8: for every buffer shorter than 8 bytes the [try] body returns the
    too-small error at once.  No fuel is needed, so neither loop runs a
    single pass and the classifier (the only user of the Unicode table)
    is never called; the result is the same for every such buffer, and
    no slice of a buffer ever holds anything but bytes of the buffer. *)
Theorem too_small_buffer (U : UnicodeData) (fuel : nat) (data : bytes) :
  len data < 8 ->
  parse_body U fuel data = Some (Return (ErrorDict FileTooSmall)) /\
  parse_with_fuel U 0 data = Some (ErrorDict FileTooSmall) /\
  parse_binary_xml U data = Some (ErrorDict FileTooSmall) /\
  (forall lo hi, incl (slice data lo hi) data /\ len (slice data lo hi) <= len data).
Proof.
  intros H. apply Z.ltb_lt in H.
  unfold parse_binary_xml, parse_with_fuel, parse_body. rewrite H.
  repeat split; [apply slice_incl | apply slice_len_le].
Qed.

Lemma too_small_buffer_witness :
  len (bytes_of [3; 0; 8]) < 8 /\
  parse_binary_xml ucd_sample (bytes_of [3; 0; 8]) = Some (ErrorDict FileTooSmall).
Proof.
  assert (H : len (bytes_of [3; 0; 8]) < 8) by (vm_compute; reflexivity).
  split; [exact H|].
  exact (proj1 (proj2 (proj2 (too_small_buffer ucd_sample 0 (bytes_of [3; 0; 8]) H)))).
Defined.

(** *** C9 *)

(** C9: the scan and the classification terminate on every buffer.  A
    pass of the chunk loop that goes on moves the cursor strictly
    forward, by [chunk_size] when that is positive and by 1 otherwise;
    the loop is left as soon as the cursor is within 8 bytes of the end;
    with one unit of fuel per byte (and one more) the scan returns, and so
    does [parse_binary_xml]; more fuel changes nothing. *)
Theorem scan_terminates (U : UnicodeData) (data : bytes) :
  (forall offset offset',
     chunk_step data offset = Return (Next offset') ->
     offset < offset' /\ offset < len data - 8 /\
     exists chunk_size,
       unpack_I (slice data (offset + 4) (offset + 8)) = Return chunk_size /\
       offset' = offset + (if 0 <? chunk_size then chunk_size else 1)) /\
  (forall offset, len data - 8 <= offset -> chunk_step data offset = Return Stop) /\
  (exists r, scan_chunks (S (length data)) data 8 = Some r /\
             forall fuel, (S (length data) <= fuel)%nat ->
                          scan_chunks fuel data 8 = Some r) /\
  (exists d, parse_binary_xml U data = Some d).
Proof.
  split; [|split; [|split]].
  - apply chunk_step_next.
  - apply chunk_step_stop.
  - destruct (scan_chunks_terminates (S (length data)) data 8) as [r Hr];
      [lia | lia | unfold len; lia |].
    exists r. split; [exact Hr|].
    intros fuel Hf. apply (scan_chunks_more_fuel (S (length data))); assumption.
  - unfold parse_binary_xml, parse_with_fuel.
    destruct (parse_body_total U data) as [r ->]. destruct r; eauto.
Qed.

(** *** C10 *)

(** C10: [parse_binary_xml] returns a dictionary for every buffer: the
    [try] body ends, with a dictionary that is returned as it is or with
    an exception that the handler turns into [{'error': str(e)}]. *)
Theorem parse_binary_xml_total (U : UnicodeData) (data : bytes) :
  exists r,
    parse_body U (S (length data)) data = Some r /\
    parse_binary_xml U data = Some (handled r) /\
    (forall e, r = Raise e -> parse_binary_xml U data = Some (ErrorDict (StrOf e))) /\
    (forall d, r = Return d -> parse_binary_xml U data = Some d).
Proof.
  destruct (parse_body_total U data) as [r Hr]. exists r.
  assert (H : parse_binary_xml U data = Some (handled r)).
  { unfold parse_binary_xml, parse_with_fuel. rewrite Hr. destruct r; reflexivity. }
  repeat split; [exact Hr | exact H | |]; intros x ->; exact H.
Qed.

(** *** C2 *)

(** C2: the permissions collected from a pool are the strings of the pool
    that start with ['android.permission.'], or contain ['.permission.']
    and end with none of ['Activity'], ['Service'], ['Receiver'],
    ['Provider']; each is kept once, at its first occurrence, in pool
    order; the record the classifier returns holds this list. *)
Theorem permissions_first_seen (strings : list str) :
  (forall s, In s (collect_permissions strings) <->
             In s strings /\ PermissionString s) /\
  NoDup (collect_permissions strings) /\
  collect_permissions strings = first_occurrences (filter is_permission strings) /\
  (forall l1 s l2,
     strings = l1 ++ s :: l2 -> PermissionString s -> ~ In s l1 ->
     exists rest, collect_permissions strings = collect_permissions l1 ++ s :: rest) /\
  (forall U m, classify U strings = Return (Manifest m) ->
               permissions m = collect_permissions strings) /\
  collect_permissions [INTERNET; CAMERA; INTERNET; CAMERA] = [INTERNET; CAMERA].
Proof.
  split; [|split; [|split; [|split; [|split]]]].
  - intros s. rewrite collect_permissions_eq, first_occurrences_In, filter_In,
      is_permission_spec. tauto.
  - rewrite collect_permissions_eq. apply first_occurrences_NoDup.
  - apply collect_permissions_eq.
  - intros l1 s l2 -> Hp Hn. unfold collect_permissions at 1.
    rewrite fold_left_app. cbn [fold_left].
    fold (collect_permissions l1).
    apply is_permission_spec in Hp. rewrite Hp.
    assert (Hm : mem s (collect_permissions l1) = false).
    { destruct (mem s (collect_permissions l1)) eqn:E; [|reflexivity].
      apply mem_In in E. rewrite collect_permissions_eq, first_occurrences_In,
        filter_In in E. tauto. }
    rewrite Hm. cbn [negb andb]. rewrite collect_from, <- app_assoc.
    eexists. reflexivity.
  - intros U m H. apply classify_fields in H. tauto.
  - vm_compute. reflexivity.
Qed.

(** *** C3 *)

(** C3: the loop of lines 159-173 leaves in [package_name] the first
    string of the pool that is a package-name candidate (none when there
    is no candidate), and that is the package of the returned record.
    The first match wins: a pool where ['com.example.myapp'] comes before
    any other candidate yields it whatever follows, and a pool where it
    comes before every ['com.example.myapp.MainActivity'] never yields
    the latter. *)
Theorem package_is_first_candidate (U : UnicodeData) (strings : list str) :
  (exists version_name,
     package_version_loop U strings =
     Return (find (package_ok U) strings, version_name)) /\
  (forall s, find (package_ok U) strings = Some s <->
             exists l1 l2, strings = l1 ++ s :: l2 /\ PackageCandidate U s /\
                           forall t, In t l1 -> ~ PackageCandidate U t) /\
  (find (package_ok U) strings = None <->
   forall t, In t strings -> ~ PackageCandidate U t) /\
  (forall m, classify U strings = Return (Manifest m) ->
             package m = find (package_ok U) strings) /\
  (forall l1 l2,
     strings = l1 ++ MYAPP :: l2 ->
     (forall t, In t l1 -> ~ PackageCandidate U t) ->
     find (package_ok U) strings = Some MYAPP) /\
  (forall l1 l2,
     strings = l1 ++ MYAPP :: l2 -> ~ In MAIN_ACTIVITY l1 ->
     exists p, find (package_ok U) strings = Some p /\ p <> MAIN_ACTIVITY).
Proof.
  assert (Hno : forall t, package_ok U t = false <-> ~ PackageCandidate U t).
  { intros t. rewrite <- package_ok_spec. destruct (package_ok U t); split; congruence. }
  assert (Hmy : package_ok U MYAPP = true) by (vm_compute; reflexivity).
  split; [|split; [|split; [|split; [|split]]]].
  - eexists. apply package_version_loop_eq.
  - intros s. rewrite find_first. split.
    + intros [l1 [l2 [H1 [H2 H3]]]]. exists l1, l2. split; [exact H1|].
      split; [apply package_ok_spec; exact H2|].
      intros t Ht. apply Hno. apply H3. exact Ht.
    + intros [l1 [l2 [H1 [H2 H3]]]]. exists l1, l2. split; [exact H1|].
      split; [apply package_ok_spec; exact H2|].
      intros t Ht. apply Hno. apply H3. exact Ht.
  - rewrite find_none_iff. split; intros H t Ht; apply Hno; apply H; exact Ht.
  - intros m H. apply classify_fields in H. tauto.
  - intros l1 l2 -> H. apply find_first. exists l1, l2.
    split; [reflexivity|]. split; [exact Hmy|].
    intros t Ht. apply Hno. apply H. exact Ht.
  - intros l1 l2 -> Hn.
    destruct (find_app_hit (package_ok U) l1 MYAPP l2 Hmy) as [p [Hp Hin]].
    exists p. split; [exact Hp|]. intros ->.
    destruct Hin as [Hin|Heq]; [contradiction | discriminate Heq].
Qed.

(** *** C4 *)

(** C4, as stated, fails: ['2.0-beta1'] is not admitted.  Without its
    punctuation it is ['20beta1']; the first five characters are
    ['20bet'], and stripping ['b'], ['a'] and ['rc'] leaves ['20et'], which
    is not made of digits. *)
Lemma beta_version_is_rejected :
  version_digits (lit "2.0-beta1") = lit "20et" /\
  version_ok ucd_sample (lit "2.0-beta1") = false /\
  package_version_loop ucd_sample [lit "2.0-beta1"] = Return (None, None).
Proof. vm_compute. auto. Qed.

(** C4, amended: the loop of lines 159-173 leaves in [version_name] the
    first string of the pool that is shorter than 50, contains ['.'],
    starts with a digit and whose transformed form (every ['.'], ['-'], ['_']
    removed, cut to 5 characters, then ['b'], ['a'] and ['rc'] removed)
    holds digits only.  The forms ['1.2.3'], ['1.0rc2'] and ['2.0b1'] are
    admitted; ['2.0-beta1'] is not. *)
Theorem version_is_first_candidate (U : UnicodeData) (strings : list str) :
  (exists package_name,
     package_version_loop U strings =
     Return (package_name, find (version_ok U) strings)) /\
  (forall s, find (version_ok U) strings = Some s <->
             exists l1 l2, strings = l1 ++ s :: l2 /\ VersionCandidate U s /\
                           forall t, In t l1 -> ~ VersionCandidate U t) /\
  (find (version_ok U) strings = None <->
   forall t, In t strings -> ~ VersionCandidate U t) /\
  (forall s,
     version_digits s =
     remove_pair
       (remove_char
          (remove_char
             (firstn 5 (remove_char (remove_char (remove_char s DOT) DASH) UNDERSCORE))
             CHAR_b) CHAR_a) CHAR_r CHAR_c) /\
  (forall m, classify U strings = Return (Manifest m) ->
             versionName m = find (version_ok U) strings) /\
  version_ok U (lit "1.2.3") = true /\
  version_ok U (lit "1.0rc2") = true /\
  version_ok U (lit "2.0b1") = true /\
  version_ok U (lit "2.0-beta1") = false.
Proof.
  assert (Hno : forall t, version_ok U t = false <-> ~ VersionCandidate U t).
  { intros t. rewrite <- version_ok_spec. destruct (version_ok U t); split; congruence. }
  split; [|split; [|split; [|split; [|split]]]].
  - eexists. apply package_version_loop_eq.
  - intros s. rewrite find_first. split.
    + intros [l1 [l2 [H1 [H2 H3]]]]. exists l1, l2. split; [exact H1|].
      split; [apply version_ok_spec; exact H2|].
      intros t Ht. apply Hno. apply H3. exact Ht.
    + intros [l1 [l2 [H1 [H2 H3]]]]. exists l1, l2. split; [exact H1|].
      split; [apply version_ok_spec; exact H2|].
      intros t Ht. apply Hno. apply H3. exact Ht.
  - rewrite find_none_iff. split; intros H t Ht; apply Hno; apply H; exact Ht.
  - reflexivity.
  - intros m H. apply classify_fields in H. tauto.
  - repeat split; vm_compute; reflexivity.
Qed.

(** *** C5 *)

(** C5 fails on the code: with the Unicode database's SUPERSCRIPT TWO (a
    digit for [str.isdigit], no decimal digit for [int()]) the pool
    [[superscripts; '12345']] has two candidates; the first is stored
    without a call of [int()], the comparison for the second raises
    [ValueError], and [parse_binary_xml] returns an error dictionary
    instead of the version code ['12345']. *)
Theorem superscript_digits_break_version_code (U : UnicodeData) :
  uni_isdigit U SUPERSCRIPT_TWO = true ->
  uni_decimal U SUPERSCRIPT_TWO = None ->
  scan_chunks (S (length superscript_pool)) superscript_pool 8
  = Some (Return [superscripts; lit "12345"]) /\
  version_code_loop U [superscripts; lit "12345"] = Raise (ValueError superscripts) /\
  parse_binary_xml U superscript_pool
  = Some (ErrorDict (StrOf (ValueError superscripts))).
Proof.
  intros Hd Hv.
  assert (Hscan : scan_chunks (S (length superscript_pool)) superscript_pool 8
                  = Some (Return [superscripts; lit "12345"]))
    by (vm_compute; reflexivity).
  assert (Hdig : isdigit U SUPERSCRIPT_TWO = true) by exact Hd.
  assert (Hint : int U superscripts = Raise (ValueError superscripts)).
  { unfold int, superscripts. cbn [digits_value].
    unfold decimal at 1. change (is_ascii SUPERSCRIPT_TWO) with false.
    cbv iota. rewrite Hv. reflexivity. }
  assert (Hloop : version_code_loop U [superscripts; lit "12345"]
                  = Raise (ValueError superscripts)).
  { unfold version_code_loop. cbn [foldM].
    assert (H1 : version_code_step U None superscripts = Return (Some superscripts)).
    { unfold version_code_step, str_isdigit, superscripts. cbn [forallb].
      rewrite Hdig. reflexivity. }
    rewrite H1. cbn [bind].
    assert (H2 : version_code_step U (Some superscripts) (lit "12345")
                 = Raise (ValueError superscripts)).
    { unfold version_code_step.
      change (str_isdigit U (lit "12345")) with true.
      change (int U (lit "12345")) with (@Return Z 12345).
      cbn [andb bind]. change ((5 <=? len (lit "12345")) && (len (lit "12345") <=? 10))
        with true. cbv iota.
      unfold superscripts at 1. fold superscripts. rewrite Hint. reflexivity. }
    rewrite H2. reflexivity. }
  split; [exact Hscan|]. split; [exact Hloop|].
  rewrite (parse_binary_xml_after_header U superscript_pool
             (Return [superscripts; lit "12345"])).
  - cbn [bind]. rewrite classify_eq, Hloop. reflexivity.
  - vm_compute. discriminate.
  - exact Hscan.
Qed.

Lemma superscript_digits_break_version_code_witness :
  uni_isdigit ucd_sample SUPERSCRIPT_TWO = true /\
  uni_decimal ucd_sample SUPERSCRIPT_TWO = None /\
  parse_binary_xml ucd_sample superscript_pool
  = Some (ErrorDict (StrOf (ValueError superscripts))).
Proof.
  split; [reflexivity|]. split; [reflexivity|].
  exact (proj2 (proj2 (superscript_digits_break_version_code ucd_sample eq_refl eq_refl))).
Defined.

(** *** C6 *)

(** C6: when ['application'] occurs in the pool, the proximity pass looks
    at the 20 strings (at most) after its first occurrence and returns the
    first proximity candidate among them; that string is then the label
    the three passes return and the [appLabel] of the record.  So
    ['MyCoolApp'] within 20 entries after ['application'], with no
    candidate before it, becomes the label. *)
Theorem proximity_pass_first_candidate (U : UnicodeData) (l1 l2 : list str) :
  ~ In (lit "application") l1 ->
  label_proximity U (l1 ++ lit "application" :: l2)
  = Return (find (proximity_ok U) (firstn 20 l2)) /\
  (forall s, proximity_ok U s = true <-> ProximityCandidate U s) /\
  (forall s,
     find (proximity_ok U) (firstn 20 l2) = Some s ->
     find_label U (l1 ++ lit "application" :: l2) = Return (Some s) /\
     forall m, classify U (l1 ++ lit "application" :: l2) = Return (Manifest m) ->
               appLabel m = Some s) /\
  (forall a b,
     l2 = a ++ MY_COOL_APP :: b -> (length a < 20)%nat ->
     (forall t, In t a -> ~ ProximityCandidate U t) ->
     find (proximity_ok U) (firstn 20 l2) = Some MY_COOL_APP).
Proof.
  intros Hn.
  assert (Hw : proximity_window (l1 ++ lit "application" :: l2) = firstn 20 l2).
  { unfold proximity_window. f_equal. clear - Hn.
    induction l1 as [|x l1 IH]; cbn [app after_application].
    - rewrite str_eqb_refl. reflexivity.
    - destruct (str_eqb x (lit "application")) eqn:E.
      + apply str_eqb_eq in E. exfalso. apply Hn. left. exact E.
      + apply IH. intros H. apply Hn. right. exact H. }
  split; [|split; [|split]].
  - rewrite label_proximity_eq, Hw. reflexivity.
  - apply proximity_ok_spec.
  - intros s Hs.
    assert (Ht : truthy (Some s) = true).
    { apply find_some in Hs. apply (proximity_ok_truthy U s). tauto. }
    split.
    + rewrite find_label_eq, Hw, Hs. reflexivity.
    + intros m Hm. apply classify_fields in Hm.
      destruct Hm as [_ [_ [_ [Hm _]]]]. rewrite Hm, Hw, Hs.
      unfold final_label. cbn [or_else]. rewrite Ht. reflexivity.
  - intros a b -> Ha Hbefore. apply find_first.
    exists a, (firstn (20 - S (length a)) b). split.
    + rewrite firstn_app.
      rewrite (firstn_all2 a) by lia.
      replace (20 - length a)%nat with (S (20 - S (length a))) by lia.
      reflexivity.
    + split; [vm_compute; reflexivity|].
      intros t Ht. specialize (Hbefore t Ht).
      rewrite <- proximity_ok_spec in Hbefore.
      destruct (proximity_ok U t); congruence.
Qed.

Lemma proximity_pass_first_candidate_witness :
  ~ In (lit "application") [lit "manifest"] /\
  label_proximity ucd_sample
    ([lit "manifest"] ++ lit "application" :: [lit "label"; MY_COOL_APP; lit "Other"])
  = Return (find (proximity_ok ucd_sample)
              (firstn 20 [lit "label"; MY_COOL_APP; lit "Other"])) /\
  find (proximity_ok ucd_sample) (firstn 20 [lit "label"; MY_COOL_APP; lit "Other"])
  = Some MY_COOL_APP.
Proof.
  assert (H : ~ In (lit "application") [lit "manifest"]).
  { intros [H|[]]. vm_compute in H. discriminate. }
  split; [exact H|]. split.
  - exact (proj1 (proximity_pass_first_candidate ucd_sample [lit "manifest"]
                    [lit "label"; MY_COOL_APP; lit "Other"] H)).
  - vm_compute. reflexivity.
Defined.

(** *** C7 *)

(** C7: when the three label passes find nothing and the loop of lines
    159-173 found the package name [p], the classifier returns (once the
    version-code loop has returned) a record whose [appLabel] is the
    capitalized last dot-separated segment of [p]: the part of [p] after
    its last ['.'].  For the pool that holds ['com.example.demo'] only, the
    label is ['Demo']. *)
Theorem label_from_package (U : UnicodeData) (strings : list str)
    (p : str) (version_name : option str) :
  find_label U strings = Return None ->
  package_version_loop U strings = Return (Some p, version_name) ->
  (exists pre seg,
     p = pre ++ DOT :: seg /\ ~ In DOT seg /\
     synthesize_label U None (Some p) = Return (Some (capitalize U seg)) /\
     classify U strings =
     (version_code <- version_code_loop U strings ;;
      Return (Manifest {| package := Some p;
                          versionName := version_name;
                          versionCode := version_code;
                          appLabel := Some (capitalize U seg);
                          permissions := collect_permissions strings |}))) /\
  classify U [DEMO_PACKAGE] =
  Return (Manifest {| package := Some DEMO_PACKAGE;
                      versionName := None;
                      versionCode := None;
                      appLabel := Some (lit "Demo");
                      permissions := [] |}).
Proof.
  intros Hl Hp. split; [|vm_compute; reflexivity].
  rewrite package_version_loop_eq in Hp. injection Hp as Hp Hv.
  rewrite find_label_eq in Hl. injection Hl as Hl.
  assert (Hok : package_ok U p = true) by (apply find_some in Hp; tauto).
  assert (Ht : truthy (Some p) = true) by (apply package_ok_truthy with (U := U); exact Hok).
  destruct (last_segment_spec p) as [Hnd [Heq|[pre Hpre]]].
  - exfalso. apply Hnd. rewrite <- Heq.
    apply package_ok_spec in Hok. destruct Hok as [Hdot _]. exact Hdot.
  - exists pre, (last_segment p). split; [exact Hpre|]. split; [exact Hnd|]. split.
    + rewrite synthesize_label_eq. unfold final_label. rewrite Ht. reflexivity.
    + rewrite classify_eq, Hp, Hv, Hl. unfold final_label. rewrite Ht. reflexivity.
Qed.

Lemma label_from_package_witness :
  find_label ucd_sample [DEMO_PACKAGE] = Return None /\
  package_version_loop ucd_sample [DEMO_PACKAGE] = Return (Some DEMO_PACKAGE, None) /\
  exists pre seg,
    DEMO_PACKAGE = pre ++ DOT :: seg /\ ~ In DOT seg /\
    synthesize_label ucd_sample None (Some DEMO_PACKAGE)
    = Return (Some (capitalize ucd_sample seg)).
Proof.
  assert (H1 : find_label ucd_sample [DEMO_PACKAGE] = Return None)
    by (vm_compute; reflexivity).
  assert (H2 : package_version_loop ucd_sample [DEMO_PACKAGE]
               = Return (Some DEMO_PACKAGE, None))
    by (vm_compute; reflexivity).
  split; [exact H1|]. split; [exact H2|].
  destruct (proj1 (label_from_package ucd_sample [DEMO_PACKAGE] DEMO_PACKAGE None H1 H2))
    as [pre [seg [E1 [E2 [E3 _]]]]].
  exists pre, seg. split; [exact E1|]. split; [exact E2 | exact E3].
Defined.

(** *** The version code on pools of decimal strings *)

(** On a pool whose version-code candidates (digits only, 5 to 10
    characters) all have a value for [int()], the loop of lines 176-179
    returns a candidate of the greatest value, compared as a number, and
    nothing when there is no candidate.  For the pool ['1.4.2'],
    ['123456789012'], ['87654321'] the version name is ['1.4.2'] and the
    version code ['87654321']; of ['99999'] and ['100000'] the latter
    wins. *)
Theorem version_code_is_greatest (U : UnicodeData) (strings : list str) :
  (forall s, In s strings -> code_ok U s = true -> exists n, int_value U s = Some n) ->
  (exists vc,
     version_code_loop U strings = Return vc /\
     (vc = None <-> forall s, In s strings -> code_ok U s = false) /\
     (forall v, vc = Some v ->
        In v strings /\ code_ok U v = true /\
        exists m, int_value U v = Some m /\
          forall s n, In s strings -> code_ok U s = true ->
                      int_value U s = Some n -> n <= m)) /\
  classify U [lit "1.4.2"; lit "123456789012"; lit "87654321"] =
  Return (Manifest {| package := None;
                      versionName := Some (lit "1.4.2");
                      versionCode := Some (lit "87654321");
                      appLabel := None;
                      permissions := [] |}) /\
  version_code_loop U [lit "99999"; lit "100000"] = Return (Some (lit "100000")).
Proof.
  intros Hval. split; [|split; vm_compute; reflexivity].
  destruct (version_code_from U strings Hval None) as [vc [H1 [H2 H3]]];
    [intros v H; discriminate|].
  exists vc. split; [exact H1|]. split.
  - rewrite H2. split; [tauto | auto].
  - intros v Hv. destruct (H3 v Hv) as [K1 [K2 [m [K3 [K4 _]]]]].
    split; [destruct K1 as [K1|K1]; [discriminate | exact K1]|].
    split; [exact K2|]. exists m. split; [exact K3 | exact K4].
Qed.

Lemma version_code_is_greatest_witness :
  version_code_loop ucd_sample [lit "1.4.2"; lit "123456789012"; lit "87654321"]
  = Return (Some (lit "87654321")) /\
  exists vc,
    version_code_loop ucd_sample [lit "1.4.2"; lit "123456789012"; lit "87654321"]
    = Return vc /\
    (vc = None <->
     forall s, In s [lit "1.4.2"; lit "123456789012"; lit "87654321"] ->
               code_ok ucd_sample s = false).
Proof.
  split; [vm_compute; reflexivity|].
  assert (H : forall s, In s [lit "1.4.2"; lit "123456789012"; lit "87654321"] ->
                        code_ok ucd_sample s = true ->
                        exists n, int_value ucd_sample s = Some n).
  { intros s [<-|[<-|[<-|[]]]] Hs; vm_compute in Hs; try discriminate.
    eexists. vm_compute. reflexivity. }
  destruct (proj1 (version_code_is_greatest ucd_sample _ H)) as [vc [H1 [H2 _]]].
  exists vc. split; [exact H1 | exact H2].
Defined.

(** *** The exceptions of the classifier *)

(** The classifier raises no [IndexError] and no [struct.error]: the only
    exception that leaves it is the [ValueError] of [int()] in the
    version-code loop. *)
Theorem classifier_raises_value_error_only (U : UnicodeData) (strings : list str)
    (e : exn) :
  classify U strings = Raise e ->
  (exists literal, e = ValueError literal) /\
  version_code_loop U strings = Raise e.
Proof.
  intros H. split.
  - revert H. rewrite classify_eq. unfold version_code_loop.
    generalize (@None str).
    induction strings as [|s l IH]; intros vc; cbn [foldM bind]; [discriminate|].
    destruct (version_code_step U vc s) as [vc'|e'] eqn:E; cbn [bind].
    + intros H. apply (IH vc').
      destruct (foldM (version_code_step U) l vc'); [discriminate | exact H].
    + intros H. injection H as <-. apply (version_code_step_raise U vc s e' E).
  - rewrite classify_eq in H.
    destruct (version_code_loop U strings) as [vc|e']; [discriminate|].
    cbn [bind] in H. injection H as ->. reflexivity.
Qed.

Lemma classifier_raises_value_error_only_witness :
  classify ucd_sample [superscripts; lit "12345"] = Raise (ValueError superscripts) /\
  version_code_loop ucd_sample [superscripts; lit "12345"]
  = Raise (ValueError superscripts).
Proof.
  assert (H : classify ucd_sample [superscripts; lit "12345"]
              = Raise (ValueError superscripts)) by (vm_compute; reflexivity).
  split; [exact H|].
  exact (proj2 (classifier_raises_value_error_only ucd_sample _ _ H)).
Defined.

(* ===================================================================== *)
(** * Further properties of the code *)

(** ** The label passes, condition by condition *)

Lemma negb_existsb_digit (U : UnicodeData) (s : str) :
  negb (existsb (isdigit U) s) = true <-> (forall c, In c s -> isdigit U c = false).
Proof.
  rewrite negb_true_iff. split.
  - intros H c Hc. destruct (isdigit U c) eqn:E; [|reflexivity].
    rewrite <- H. symmetry. apply existsb_exists. eauto.
  - intros H. destruct (existsb (isdigit U) s) eqn:E; [|reflexivity].
    apply existsb_exists in E. destruct E as [c [Hc E]].
    rewrite (H c Hc) in E. discriminate.
Qed.

Lemma global_ok_spec (U : UnicodeData) (s : str) :
  global_ok U s = true <-> GlobalCandidate U s.
Proof.
  unfold global_ok, global_cond, GlobalCandidate, excluded.
  change (lit "/") with [SLASH]. change (lit ".") with [DOT].
  change (lit " ") with [32].
  rewrite !andb_true_iff, !Z.leb_le, first_char_spec, contains_char,
    !(negb_iff _ _ (contains_char _ _)),
    !(negb_iff _ _ (startswith_spec _ _)),
    (negb_iff _ _ (endswith_spec _ _)),
    (negb_iff _ _ (mem_In _ _)).
  tauto.
Qed.

Lemma fallback_ok_spec (U : UnicodeData) (s : str) :
  fallback_ok U s = true <-> FallbackCandidate U s.
Proof.
  unfold fallback_ok, FallbackCandidate, excluded.
  rewrite !andb_true_iff, !Z.leb_le, first_char_spec, (negb_iff _ _ (mem_In _ _)).
  assert (Ha : str_isalpha U s = true <-> (s <> [] /\ forall c, In c s -> isalpha U c = true)).
  { unfold str_isalpha. destruct s as [|c r].
    - split; [discriminate | intros [H _]; congruence].
    - rewrite forallb_forall. split; [intros H; split; [discriminate | exact H] | tauto]. }
  rewrite Ha. split.
  - tauto.
  - intros [H1 [H2 [[c [r [H3 H4]]] [H5 H6]]]].
    repeat split; try assumption; eauto. subst s. discriminate.
Qed.

Lemma after_application_incl (strings : list str) :
  incl (after_application strings) strings.
Proof.
  induction strings as [|s l IH]; cbn [after_application]; [intros x []|].
  destruct (str_eqb s (lit "application")).
  - intros x H. right. exact H.
  - intros x H. right. apply IH. exact H.
Qed.

Lemma proximity_window_incl (strings : list str) :
  incl (proximity_window strings) strings.
Proof.
  unfold proximity_window. intros x H.
  apply after_application_incl.
  rewrite <- (firstn_skipn 20 (after_application strings)).
  apply in_or_app. left. exact H.
Qed.

(** The three label passes (lines 110-157) in order: the label is the
    first proximity candidate of the window after ['application'];
    without one, the first global candidate of the pool (3 to 50
    characters, no ['/'], no ['.'], none of the excluded prefixes, suffix
    and words, a leading upper-case letter and a space); without one, the
    first fallback candidate (3 to 30 alphabetic characters, leading
    upper-case letter, not an excluded word).  A label found this way is a
    string of the pool with 2 to 50 characters and a leading upper-case
    letter; the passes find nothing exactly when no pass has a
    candidate. *)
Theorem label_passes_in_order (U : UnicodeData) (strings : list str) :
  find_label U strings =
  Return (or_else (find (proximity_ok U) (proximity_window strings))
            (or_else (find (global_ok U) strings)
               (find (fallback_ok U) strings))) /\
  (forall s, global_ok U s = true <-> GlobalCandidate U s) /\
  (forall s, fallback_ok U s = true <-> FallbackCandidate U s) /\
  (forall a, find_label U strings = Return (Some a) ->
     In a strings /\ 2 <= len a /\ len a <= 50 /\
     exists c r, a = c :: r /\ isupper U c = true) /\
  (find_label U strings = Return None <->
   (forall s, In s (proximity_window strings) -> ~ ProximityCandidate U s) /\
   (forall s, In s strings -> ~ GlobalCandidate U s) /\
   (forall s, In s strings -> ~ FallbackCandidate U s)).
Proof.
  split; [apply find_label_eq|]. split; [apply global_ok_spec|].
  split; [apply fallback_ok_spec|]. rewrite find_label_eq. split.
  - intros a H. injection H as H.
    destruct (find (proximity_ok U) (proximity_window strings)) as [s|] eqn:E1;
      cbn [or_else] in H.
    + injection H as <-. apply find_some in E1. destruct E1 as [E1 E2].
      apply proximity_ok_spec in E2. unfold ProximityCandidate in E2.
      split; [apply proximity_window_incl; exact E1 | tauto].
    + destruct (find (global_ok U) strings) as [s|] eqn:E2; cbn [or_else] in H.
      * injection H as <-. apply find_some in E2. destruct E2 as [E2 E3].
        apply global_ok_spec in E3. unfold GlobalCandidate in E3.
        split; [exact E2|]. repeat split; try tauto. lia.
      * apply find_some in H. destruct H as [H1 H2].
        apply fallback_ok_spec in H2. unfold FallbackCandidate in H2.
        split; [exact H1|]. repeat split; try tauto; lia.
  - assert (Hn : forall (f : str -> bool) (P : str -> Prop) (l : list str),
               (forall s, f s = true <-> P s) ->
               (find f l = None <-> forall s, In s l -> ~ P s)).
    { intros f P l Hf. rewrite find_none_iff. split; intros H s Hs.
      - rewrite <- Hf. rewrite (H s Hs). discriminate.
      - specialize (H s Hs). rewrite <- Hf in H. destruct (f s); congruence. }
    rewrite <- (Hn _ _ _ (proximity_ok_spec U)), <- (Hn _ _ _ (global_ok_spec U)),
      <- (Hn _ _ _ (fallback_ok_spec U)).
    destruct (find (proximity_ok U) (proximity_window strings));
      destruct (find (global_ok U) strings);
      destruct (find (fallback_ok U) strings); cbn [or_else];
      split; intros H; try discriminate; try reflexivity;
      try (destruct H as [? [? ?]]; discriminate); auto.
Qed.

(** ** The record holds strings of the pool *)

Lemma permissions_member_of_pool (strings : list str) (s : str) :
  In s (collect_permissions strings) <-> In s strings /\ PermissionString s.
Proof.
  rewrite collect_permissions_eq, first_occurrences_In, filter_In, is_permission_spec.
  tauto.
Qed.

Lemma version_code_member (U : UnicodeData) (l : list str) :
  forall vc vc' : option str,
    foldM (version_code_step U) l vc = Return vc' ->
    vc' = vc \/ exists v, vc' = Some v /\ In v l /\ code_ok U v = true.
Proof.
  induction l as [|s l IH]; intros vc vc' H; cbn [foldM] in H.
  - injection H as <-. left. reflexivity.
  - destruct (version_code_step U vc s) as [vc1|e] eqn:E; cbn [bind] in H; [|discriminate].
    assert (H1 : vc1 = vc \/ (vc1 = Some s /\ code_ok U s = true)).
    { unfold version_code_step in E. fold (code_ok U s) in E.
      destruct (code_ok U s); [|injection E as <-; left; reflexivity].
      destruct vc as [[|c v]|]; try (injection E as <-; right; split; reflexivity).
      destruct (int U s) as [n|]; cbn [bind] in E; [|discriminate].
      destruct (int U (c :: v)) as [m|]; cbn [bind] in E; [|discriminate].
      destruct (m <? n); injection E as <-; [right; split; reflexivity | left; reflexivity]. }
    destruct (IH vc1 vc' H) as [->|[v [-> [Hv1 Hv2]]]].
    + destruct H1 as [->|[-> Hs]]; [left; reflexivity|].
      right. exists s. split; [reflexivity|]. split; [left; reflexivity | exact Hs].
    + right. exists v. split; [reflexivity|]. split; [right; exact Hv1 | exact Hv2].
Qed.

Lemma code_ok_spec (U : UnicodeData) (s : str) :
  code_ok U s = true <->
  (forall c, In c s -> isdigit U c = true) /\ 5 <= len s /\ len s <= 10.
Proof.
  unfold code_ok. rewrite !andb_true_iff, !Z.leb_le.
  assert (Hd : 5 <= len s ->
               (str_isdigit U s = true <-> forall c, In c s -> isdigit U c = true)).
  { intros H5. unfold str_isdigit. destruct s as [|c r]; [discriminate H5 || (exfalso; apply H5; reflexivity)|].
    apply forallb_forall. }
  split; intros H; repeat split; try tauto; apply Hd; tauto.
Qed.

(** Whatever record the classifier returns, its package, version name,
    version code and permissions are strings of the pool that pass the
    respective test, and its label is a string of the pool that one of the
    three passes accepts or the capitalized last segment of the package. *)
Theorem record_fields_come_from_pool (U : UnicodeData) (strings : list str)
    (m : ManifestMetadata) :
  classify U strings = Return (Manifest m) ->
  (forall p, package m = Some p -> In p strings /\ PackageCandidate U p) /\
  (forall v, versionName m = Some v -> In v strings /\ VersionCandidate U v) /\
  (forall c, versionCode m = Some c ->
     In c strings /\ (forall d, In d c -> isdigit U d = true) /\
     5 <= len c /\ len c <= 10) /\
  (forall s, In s (permissions m) -> In s strings /\ PermissionString s) /\
  (forall a, appLabel m = Some a ->
     (In a strings /\
      (ProximityCandidate U a \/ GlobalCandidate U a \/ FallbackCandidate U a)) \/
     (exists p, package m = Some p /\ a = capitalize U (last_segment p))).
Proof.
  intros H. apply classify_fields in H.
  destruct H as [Hp [Hv [Hc [Ha Hperm]]]].
  split; [|split; [|split; [|split]]].
  - intros p E. rewrite Hp in E. apply find_some in E.
    rewrite package_ok_spec in E. exact E.
  - intros v E. rewrite Hv in E. apply find_some in E.
    rewrite version_ok_spec in E. exact E.
  - intros c E. unfold version_code_loop in Hc.
    apply version_code_member in Hc. rewrite E in Hc.
    destruct Hc as [Hc|[v [Hc [H1 H2]]]]; [discriminate|].
    injection Hc as <-. apply code_ok_spec in H2. tauto.
  - intros s E. rewrite Hperm in E.
    apply (proj1 (permissions_member_of_pool strings s)) in E. exact E.
  - intros a E. rewrite Ha in E. unfold final_label in E.
    destruct (find (proximity_ok U) (proximity_window strings)) as [s1|] eqn:E1;
      cbn [or_else] in E.
    + assert (Ht : truthy (Some s1) = true).
      { apply find_some in E1. apply (proximity_ok_truthy U). tauto. }
      rewrite Ht in E. cbn [negb andb] in E. injection E as <-.
      apply find_some in E1. destruct E1 as [E1 E2].
      left. split; [apply proximity_window_incl; exact E1|].
      left. apply proximity_ok_spec. exact E2.
    + destruct (find (global_ok U) strings) as [s2|] eqn:E2; cbn [or_else] in E.
      * assert (Ht : truthy (Some s2) = true).
        { apply find_some in E2. apply (global_ok_truthy U). tauto. }
        rewrite Ht in E. cbn [negb andb] in E. injection E as <-.
        apply find_some in E2. destruct E2 as [E2 E3].
        left. split; [exact E2|]. right. left. apply global_ok_spec. exact E3.
      * destruct (find (fallback_ok U) strings) as [s3|] eqn:E3.
        -- assert (Ht : truthy (Some s3) = true).
           { apply find_some in E3. apply (fallback_ok_truthy U). tauto. }
           rewrite Ht in E. cbn [negb andb] in E. injection E as <-.
           apply find_some in E3. destruct E3 as [E3 E4].
           left. split; [exact E3|]. right. right. apply fallback_ok_spec. exact E4.
        -- cbn [truthy negb andb] in E.
           destruct (find (package_ok U) strings) as [p|] eqn:E4.
           ++ destruct (truthy (Some p)); [|discriminate].
              injection E as <-. right. exists p. split; [exact Hp | reflexivity].
           ++ cbn [truthy] in E. discriminate.
Qed.

Lemma record_fields_come_from_pool_witness :
  exists m,
    classify ucd_sample [lit "1.4.2"; DEMO_PACKAGE; INTERNET] = Return (Manifest m) /\
    package m = Some DEMO_PACKAGE /\
    forall p, package m = Some p ->
              In p [lit "1.4.2"; DEMO_PACKAGE; INTERNET] /\ PackageCandidate ucd_sample p.
Proof.
  assert (H : classify ucd_sample [lit "1.4.2"; DEMO_PACKAGE; INTERNET]
              = Return (Manifest {| package := Some DEMO_PACKAGE;
                                    versionName := Some (lit "1.4.2");
                                    versionCode := None;
                                    appLabel := Some (lit "Demo");
                                    permissions := [INTERNET] |}))
    by (vm_compute; reflexivity).
  eexists. split; [exact H|]. split; [reflexivity|].
  exact (proj1 (record_fields_come_from_pool ucd_sample _ _ H)).
Defined.

(** ** What [main] prints *)






(** ** Size of the pool *)

Lemma slice_len_bound {A : Type} (data : list A) (lo hi : Z) :
  len (slice data lo hi) <= Z.max 0 (hi - lo).
Proof.
  unfold slice, len. rewrite length_firstn. lia.
Qed.

(** A decoded string has at most one code point per two bytes. *)
Lemma decode_utf16le_len (b : bytes) : 2 * len (decode_utf16le b) <= len b.
Proof.
  assert (G : forall (n : nat) (b : bytes),
             (length b <= n)%nat -> 2 * len (decode_utf16le b) <= len b).
  { induction n as [|n IH]; intros [|b0 [|b1 rest]] Hn;
      cbn [decode_utf16le]; unfold len in *; cbn [length] in *; try lia.
    assert (Hrest : 2 * Z.of_nat (length (decode_utf16le rest))
                    <= Z.of_nat (length rest)) by (apply IH; lia).
    destruct (is_low_surrogate _); [lia|].
    destruct (is_high_surrogate _); [|cbn [length]; lia].
    destruct rest as [|c0 [|c1 rest']]; cbn [length] in *; try lia.
    destruct (is_low_surrogate _); [|lia].
    assert (Hrest' : 2 * Z.of_nat (length (decode_utf16le rest'))
                     <= Z.of_nat (length rest')) by (apply IH; lia).
    cbn [length]. lia. }
  apply (G (length b)). lia.
Qed.

Lemma read_offsets_len (fuel : nat) (data : bytes) (offset string_count i : Z)
    (offsets offsets' : list Z) :
  0 <= i ->
  read_offsets fuel data offset string_count i offsets = Some (Return offsets') ->
  len offsets' = len offsets + Z.max 0 (string_count - i).
Proof.
  revert i offsets.
  induction fuel as [|fuel IH]; intros i offsets Hi H; [discriminate|].
  cbn [read_offsets] in H. destruct (i <? string_count) eqn:Ei.
  - apply Z.ltb_lt in Ei.
    destruct (unpack_I _) as [n|e]; [|discriminate].
    apply IH in H; [|lia]. rewrite H, len_app. change (len [n]) with 1. lia.
  - apply Z.ltb_ge in Ei. injection H as <-. lia.
Qed.

Lemma read_strings_bounds (data : bytes) (data_start : Z) (offsets : list Z) :
  forall strings out : list str,
    read_strings data data_start offsets strings = Return out ->
    exists new, out = strings ++ new /\ len new <= len offsets /\
                Forall (fun s => len s < 1000) new.
Proof.
  induction offsets as [|x offsets IH]; intros strings out H; cbn [read_strings] in H.
  - injection H as <-. exists []. rewrite app_nil_r.
    repeat split; [reflexivity | constructor].
  - rewrite len_cons.
    assert (Hskip : forall out', read_strings data data_start offsets strings = Return out' ->
                      exists new, out' = strings ++ new /\ len new <= len offsets + 1 /\
                                  Forall (fun s => len s < 1000) new).
    { intros out' H'. destruct (IH _ _ H') as [new [E1 [E2 E3]]].
      exists new. repeat split; [exact E1 | lia | exact E3]. }
    destruct (data_start + x <? len data - 2); [|apply Hskip; exact H].
    destruct (unpack_H _) as [str_len|e]; cbn [bind] in H; [|discriminate].
    destruct ((0 <? str_len) && (str_len <? 1000)) eqn:El; [|apply Hskip; exact H].
    apply andb_true_iff in El. destruct El as [El1 El2].
    apply Z.ltb_lt in El1. apply Z.ltb_lt in El2.
    destruct (IH _ _ H) as [new [E1 [E2 E3]]].
    exists (decode_utf16le
              (slice data (data_start + x + 2) (data_start + x + 2 + str_len * 2)) :: new).
    split; [rewrite E1, <- app_assoc; reflexivity|].
    split; [rewrite len_cons; lia|].
    constructor; [|exact E3].
    pose proof (decode_utf16le_len
                  (slice data (data_start + x + 2) (data_start + x + 2 + str_len * 2))) as Hd.
    pose proof (slice_len_bound data (data_start + x + 2)
                  (data_start + x + 2 + str_len * 2)) as Hs.
    lia.
Qed.

Lemma read_string_pool_bounds (fuel : nat) (data : bytes) (o : Z) (strings : list str) :
  0 <= o ->
  read_string_pool fuel data o = Some (Return strings) ->
  4 * len strings <= len data /\ Forall (fun s => len s < 1000) strings.
Proof.
  intros Ho H. unfold read_string_pool in H.
  destruct (unpack_I (slice data (o + 8) (o + 12))) as [n|e] eqn:En; [|discriminate].
  destruct (read_offsets fuel data o n 0 []) as [[offs|e]|] eqn:Eo; try discriminate.
  injection H as H.
  pose proof (read_offsets_len _ _ _ _ _ _ _ (Z.le_refl 0) Eo) as Hl.
  pose proof (read_offsets_return _ _ _ _ _ _ _ Ho (Z.le_refl 0) Eo) as [Hfit _].
  destruct (read_strings_bounds _ _ _ _ _ H) as [new [-> [E2 E3]]].
  cbn [app]. split; [|exact E3].
  change (len (@nil Z)) with 0 in Hl. pose proof (len_nonneg data).
  destruct (Z_lt_ge_dec 0 n) as [L|G]; [specialize (Hfit L)|]; lia.
Qed.

Lemma scan_chunks_result (fuel : nat) (data : bytes) :
  forall (o : Z) (strings : list str),
    0 <= o ->
    scan_chunks fuel data o = Some (Return strings) ->
    strings = [] \/
    exists (f : nat) (o' : Z), 0 <= o' /\ read_string_pool f data o' = Some (Return strings).
Proof.
  induction fuel as [|fuel IH]; intros o strings Ho H; [discriminate|].
  cbn [scan_chunks] in H.
  destruct (chunk_step data o) as [[| |o']|e] eqn:E; try discriminate.
  - injection H as <-. left. reflexivity.
  - right. exists fuel, o. split; assumption.
  - apply chunk_step_next in E. apply (IH o'); [lia | exact H].
Qed.

Lemma parse_manifest_inv (U : UnicodeData) (data : bytes) (m : ManifestMetadata) :
  parse_binary_xml U data = Some (Manifest m) ->
  exists strings,
    scan_chunks (S (length data)) data 8 = Some (Return strings) /\
    classify U strings = Return (Manifest m).
Proof.
  intros H. destruct (Z_lt_ge_dec (len data) 8) as [L|G].
  - apply Z.ltb_lt in L. unfold parse_binary_xml, parse_with_fuel, parse_body in H.
    rewrite L in H. discriminate.
  - destruct (scan_chunks_terminates (S (length data)) data 8) as [r Hr];
      [lia | lia | unfold len; lia |].
    rewrite (parse_binary_xml_after_header U data r) in H by (lia || exact Hr).
    destruct r as [strings|e]; cbn [bind handled] in H; [|discriminate].
    exists strings. split; [exact Hr|].
    destruct (classify U strings) as [d|e]; cbn [handled] in H; [|discriminate].
    congruence.
Qed.

(** The pool the scan returns has at most one string per four bytes of
    the buffer, and every string has fewer than 1000 code points; so a
    returned record lists at most a quarter of the buffer length in
    permissions, each shorter than 1000. *)
Theorem pool_size_is_bounded (U : UnicodeData) (data : bytes) :
  (forall fuel strings,
     scan_chunks fuel data 8 = Some (Return strings) ->
     4 * len strings <= len data /\ Forall (fun s => len s < 1000) strings) /\
  (forall m,
     parse_binary_xml U data = Some (Manifest m) ->
     4 * len (permissions m) <= len data /\
     Forall (fun s => len s < 1000) (permissions m)).
Proof.
  assert (G : forall fuel strings,
             scan_chunks fuel data 8 = Some (Return strings) ->
             4 * len strings <= len data /\ Forall (fun s => len s < 1000) strings).
  { intros fuel strings H. apply scan_chunks_result in H; [|lia].
    destruct H as [->|[f [o [Ho H]]]].
    - split; [pose proof (len_nonneg data); change (len (@nil str)) with 0; lia | constructor].
    - apply (read_string_pool_bounds f data o strings Ho H). }
  split; [exact G|].
  intros m H. apply parse_manifest_inv in H. destruct H as [strings [Hs Hc]].
  destruct (G _ _ Hs) as [G1 G2].
  apply classify_fields in Hc. destruct Hc as [_ [_ [_ [_ Hp]]]]. rewrite Hp.
  assert (Hin : incl (collect_permissions strings) strings).
  { intros s Hs'. apply permissions_member_of_pool in Hs'. tauto. }
  split.
  - assert (Hn : NoDup (collect_permissions strings))
      by (rewrite collect_permissions_eq; apply first_occurrences_NoDup).
    pose proof (NoDup_incl_length Hn Hin) as Hle. unfold len in *. lia.
  - rewrite Forall_forall in *. intros s Hs'. apply G2. apply Hin. exact Hs'.
Qed.

(** ** The header is read and ignored *)

Lemma same_after_header_app (h h' rest : bytes) :
  length h = 8%nat -> length h' = 8%nat ->
  same_after_header (h ++ rest) (h' ++ rest).
Proof.
  intros H H'. split.
  - unfold len. rewrite !length_app. lia.
  - intros lo hi Hlo. unfold slice. f_equal.
    rewrite !skipn_app.
    rewrite (skipn_all2 h) by lia. rewrite (skipn_all2 h') by lia.
    rewrite H, H'. reflexivity.
Qed.

Section SameAfterHeader.

Variables data data' : bytes.
Hypothesis Hsame : same_after_header data data'.

Lemma chunk_step_same (o : Z) :
  8 <= o -> chunk_step data o = chunk_step data' o.
Proof.
  intros Ho. destruct Hsame as [Hl Hs]. unfold chunk_step.
  rewrite Hl, !Hs by lia. reflexivity.
Qed.

Lemma read_offsets_same (fuel : nat) (o n i : Z) (acc : list Z) :
  8 <= o -> 0 <= i ->
  read_offsets fuel data o n i acc = read_offsets fuel data' o n i acc.
Proof.
  revert i acc. induction fuel as [|fuel IH]; intros i acc Ho Hi; [reflexivity|].
  cbn [read_offsets]. destruct Hsame as [_ Hs]. rewrite Hs by lia.
  destruct (i <? n); [|reflexivity].
  destruct (unpack_I _); [|reflexivity]. apply IH; lia.
Qed.

Lemma read_strings_same (data_start : Z) (offsets : list Z) (strings : list str) :
  8 <= data_start -> Forall (fun x => 0 <= x) offsets ->
  read_strings data data_start offsets strings
  = read_strings data' data_start offsets strings.
Proof.
  intros Hd Hall. revert strings.
  induction Hall as [|x offsets Hx _ IH]; intros strings; [reflexivity|].
  cbn [read_strings]. destruct Hsame as [Hl Hs].
  rewrite Hl, !Hs by lia.
  destruct (data_start + x <? len data' - 2); [|apply IH].
  destruct (unpack_H _) as [str_len|e]; cbn [bind]; [|reflexivity].
  destruct ((0 <? str_len) && (str_len <? 1000)); [|apply IH].
  rewrite Hs by lia. apply IH.
Qed.

Lemma read_string_pool_same (fuel : nat) (o : Z) :
  8 <= o -> read_string_pool fuel data o = read_string_pool fuel data' o.
Proof.
  intros Ho. unfold read_string_pool.
  destruct Hsame as [_ Hs]. rewrite Hs by lia.
  destruct (unpack_I (slice data' (o + 8) (o + 12))) as [n|e] eqn:En; [|reflexivity].
  rewrite <- read_offsets_same by lia.
  destruct (read_offsets fuel data o n 0 []) as [[offs|e]|] eqn:Eo; try reflexivity.
  f_equal. apply read_strings_same.
  - apply unpack_I_inv in En. lia.
  - apply read_offsets_return in Eo; [|lia|lia].
    destruct Eo as [_ Eo]. apply Eo. constructor.
Qed.

Lemma scan_chunks_same (fuel : nat) (o : Z) :
  8 <= o -> scan_chunks fuel data o = scan_chunks fuel data' o.
Proof.
  revert o. induction fuel as [|fuel IH]; intros o Ho; [reflexivity|].
  cbn [scan_chunks]. rewrite <- chunk_step_same by exact Ho.
  destruct (chunk_step data o) as [[| |o']|e] eqn:E; try reflexivity.
  - apply read_string_pool_same. exact Ho.
  - apply chunk_step_next in E. apply IH. lia.
Qed.

Lemma parse_binary_xml_same (U : UnicodeData) :
  parse_binary_xml U data = parse_binary_xml U data'.
Proof.
  assert (Hl : len data = len data') by (destruct Hsame; assumption).
  assert (Hn : length data = length data') by (unfold len in Hl; lia).
  unfold parse_binary_xml, parse_with_fuel.
  destruct (Z_lt_ge_dec (len data) 8) as [L|G].
  - unfold parse_body. rewrite <- Hl.
    apply Z.ltb_lt in L. rewrite L. reflexivity.
  - rewrite !parse_body_after_header by lia.
    rewrite Hn, scan_chunks_same by lia. reflexivity.
Qed.

End SameAfterHeader.

(** The first 8 bytes (magic word and declared file size) are read and
    never looked at: two buffers that differ only there give the same
    result, so a wrong magic word or a wrong declared size is not
    detected. *)
Theorem header_is_ignored (U : UnicodeData) (h h' rest : bytes) :
  length h = 8%nat -> length h' = 8%nat ->
  parse_binary_xml U (h ++ rest) = parse_binary_xml U (h' ++ rest) /\
  main_output U (h ++ rest) = main_output U (h' ++ rest).
Proof.
  intros H H'.
  assert (E : parse_binary_xml U (h ++ rest) = parse_binary_xml U (h' ++ rest)).
  { apply parse_binary_xml_same. apply same_after_header_app; assumption. }
  split; [exact E|]. unfold main_output. rewrite E. reflexivity.
Qed.

Lemma header_is_ignored_witness :
  parse_binary_xml ucd_sample
    (bytes_of [3; 0; 8; 0; 68; 0; 0; 0] ++ skipn 8 superscript_pool)
  = parse_binary_xml ucd_sample
      (bytes_of [255; 255; 255; 255; 0; 0; 0; 0] ++ skipn 8 superscript_pool).
Proof.
  exact (proj1 (header_is_ignored ucd_sample
                  (bytes_of [3; 0; 8; 0; 68; 0; 0; 0])
                  (bytes_of [255; 255; 255; 255; 0; 0; 0; 0])
                  (skipn 8 superscript_pool) eq_refl eq_refl)).
Defined.

(** ** Only the first string pool is read *)

Lemma reaches_before (data : bytes) (b : Z) :
  reaches data b ->
  forall a, reaches data a -> a < b ->
            exists a', chunk_step data a = Return (Next a').
Proof.
  induction 1 as [|c b Hc IH Hs]; intros a Ha Hlt.
  - pose proof (reaches_lower data a Ha). lia.
  - destruct (Z_dec a c) as [[Lt|Gt]|Eq].
    + apply IH; assumption.
    + exfalso.
      pose proof (reaches_linear data a Ha c b Hc Hs). lia.
    + subst a. eauto.
Qed.

(** The loop stops at the first chunk with the string-pool marker: that
    position is the only one where it meets a pool, every position it
    visits lies at or before it, and every earlier one was a chunk of
    another type that moved the cursor on.  A later string pool is never
    read. *)
Theorem first_pool_only (data : bytes) (o : Z) :
  pool_at data o ->
  (forall o', pool_at data o' -> o' = o) /\
  (forall o', reaches data o' -> o' <= o) /\
  (forall o', reaches data o' -> o' < o ->
     exists next, chunk_step data o' = Return (Next next) /\ next <= o) /\
  (exists fuel, scan_chunks (S (length data)) data 8 = read_string_pool fuel data o).
Proof.
  intros [Hr Hp].
  assert (Hmax : forall o', reaches data o' -> o' <= o).
  { intros o' Hr'. destruct (Z_le_gt_dec o' o) as [L|G]; [exact L|].
    destruct (reaches_before data o' Hr' o Hr) as [a' Ha]; [lia|]. congruence. }
  split; [|split; [exact Hmax|split]].
  - intros o' [Hr' Hp']. pose proof (Hmax o' Hr') as L.
    destruct (Z.eq_dec o' o) as [E|N]; [exact E|].
    destruct (reaches_before data o Hr o' Hr') as [a' Ha]; [lia|]. congruence.
  - intros o' Hr' Hlt.
    destruct (reaches_before data o Hr o' Hr' Hlt) as [next Hn].
    exists next. split; [exact Hn|].
    apply (reaches_linear data o Hr o' next Hr' Hn Hlt).
  - destruct (scan_chunks_pool data o (conj Hr Hp)) as [f [_ [_ Hf]]]. eauto.
Qed.

Lemma first_pool_only_witness :
  pool_at superscript_pool 8 /\
  forall o', pool_at superscript_pool o' -> o' = 8.
Proof.
  assert (H : pool_at superscript_pool 8)
    by (split; [constructor | vm_compute; reflexivity]).
  split; [exact H|].
  exact (proj1 (first_pool_only superscript_pool 8 H)).
Defined.

(** ** First matches survive appended strings *)



(** ** [get_string] *)

Lemma index_of_spec (b : Byte.byte) (l : bytes) :
  match index_of b l with
  | Some k => exists pre post, l = pre ++ b :: post /\ len pre = k /\ ~ In b pre
  | None => ~ In b l
  end.
Proof.
  induction l as [|x l IH]; cbn [index_of]; [intros []|].
  destruct (Byte.eqb x b) eqn:E.
  - apply Byte.byte_dec_bl in E. subst x. exists [], l.
    repeat split. intros [].
  - assert (x <> b) by (intros ->; rewrite (Byte.byte_dec_lb eq_refl) in E; discriminate).
    destruct (index_of b l) as [k|].
    + destruct IH as [pre [post [-> [Hk Hn]]]]. exists (x :: pre), post.
      repeat split; [rewrite len_cons; lia|]. intros [Hx|Hx]; auto.
    + intros [Hx|Hx]; auto.
Qed.

Lemma clip_start_nonneg (data : bytes) (start : Z) : 0 <= clip_start data start.
Proof.
  unfold clip_start. destruct (start <? 0) eqn:E; [lia|].
  apply Z.ltb_ge in E. exact E.
Qed.

(** [get_string] decodes exactly the bytes from [offset] (counted from the
    end when negative) up to, and without, the first zero byte at or after
    it, or up to the end of the buffer when there is none: the decoded
    bytes hold no zero byte, and what follows them is nothing or starts
    with a zero byte.  An offset past the end gives the decoding of the
    empty byte string. *)
Theorem get_string_stops_at_zero (decode_utf8 : bytes -> str) (data : bytes)
    (offset : Z) :
  (exists payload rest,
     skipn (Z.to_nat (clip_start data offset)) data = payload ++ rest /\
     ~ In Byte.x00 payload /\
     (rest = [] \/ exists r, rest = Byte.x00 :: r) /\
     get_string decode_utf8 data offset = decode_utf8 payload) /\
  (len data <= offset -> get_string decode_utf8 data offset = decode_utf8 []).
Proof.
  assert (G : exists payload rest,
     skipn (Z.to_nat (clip_start data offset)) data = payload ++ rest /\
     ~ In Byte.x00 payload /\
     (rest = [] \/ exists r, rest = Byte.x00 :: r) /\
     get_string decode_utf8 data offset = decode_utf8 payload).
  { unfold get_string, bytes_find.
    pose proof (clip_start_nonneg data offset) as Hs.
    pose proof (index_of_spec Byte.x00 (skipn (Z.to_nat (clip_start data offset)) data)) as Hi.
    destruct (index_of Byte.x00 (skipn (Z.to_nat (clip_start data offset)) data)) as [k|].
    - destruct Hi as [pre [post [E [Hk Hn]]]].
      exists pre, (Byte.x00 :: post). split; [exact E|]. split; [exact Hn|].
      split; [right; eauto|].
      pose proof (len_nonneg pre).
      destruct (clip_start data offset + k =? -1) eqn:Ek; [apply Z.eqb_eq in Ek; lia|].
      f_equal. unfold slice. rewrite E.
      replace (Z.to_nat (clip_start data offset + k - clip_start data offset))
        with (length pre) by (unfold len in Hk; lia).
      rewrite firstn_app, Nat.sub_diag, firstn_all. cbn [firstn]. apply app_nil_r.
    - exists (skipn (Z.to_nat (clip_start data offset)) data), [].
      rewrite app_nil_r. split; [reflexivity|]. split; [exact Hi|].
      split; [left; reflexivity | reflexivity]. }
  split; [exact G|].
  intros Hlen. destruct G as [payload [rest [E [_ [_ ->]]]]].
  pose proof (len_nonneg data).
  assert (Hc : clip_start data offset = offset).
  { unfold clip_start. destruct (offset <? 0) eqn:E0; [apply Z.ltb_lt in E0; lia | reflexivity]. }
  rewrite Hc, skipn_all2 in E by (unfold len in Hlen; lia).
  destruct payload; [reflexivity | discriminate].
Qed.
